(** * Movie catalog service: request handlers and request schemas

    A shallow embedding of [src/routes/movies.py] (the five handlers of the
    [/movies] router) and of [src/schemas/movies.py] (the pydantic schemas),
    followed by the properties of the catalog that the specification states.

    Conventions of the embedding.
    - Python [int] is [Z]; [//] on a positive divisor is [Z.div].
    - Python [float] fields ([score], [budget], [revenue]) hold finite
      numbers, modelled by the rationals [Q] they denote; NaN and the
      infinities are outside the model.
    - [datetime.date] is the proleptic Gregorian day number, a [Z];
      [d + timedelta(days=365)] is [d + 365]; [date.today()] is the argument
      [today] of the validators.
    - Python [str] is [string], one [ascii] per character.
    - An attribute that may hold [None] is an [option].
    - A handler that raises returns [Raise e]; the session is then closed
      without a commit, so the store is the one the request started with. *)

From Stdlib Require Import ZArith QArith Qround Ascii String DecimalString.
From stdpp Require Import base tactics option list sorting strings.

Local Close Scope Q_scope.
Local Open Scope Z_scope.
Set Default Proof Using "Type".

(** ** Outcomes of a request *)

(** What a handler can raise.  [HTTPException] carries the status code given in
    the source (the detail text is not modelled); [RequestValidationError] is
    the rejection of a request body by its schema, answered 422 by the
    framework; [MultipleResultsFound], [ValidationError] (pydantic's, raised while a
    handler builds a response object), [TypeError], [AttributeError] and
    [IntegrityError] (raised by a commit that the store refuses) are exceptions
    that no handler catches, which the framework answers with status 500;
    [ValueError] is what a validator raises to report a bad value. *)
Inductive exn : Type :=
| HTTPException (status_code : Z)
| RequestValidationError
| MultipleResultsFound
| ValidationError
| TypeError
| ValueError
| AttributeError
| IntegrityError.

Definition HTTP_404_NOT_FOUND : Z := 404.
Definition HTTP_409_CONFLICT : Z := 409.

Definition NotFound : exn := HTTPException HTTP_404_NOT_FOUND.
Definition Conflict : exn := HTTPException HTTP_409_CONFLICT.

Inductive result (A : Type) : Type :=
| Ok (a : A)
| Raise (e : exn).
Arguments Ok {A} a.
Arguments Raise {A} e.

#[global] Instance result_ret : MRet result := λ A a, Ok a.
#[global] Instance result_bind : MBind result :=
  λ A B f r, match r with Ok a => f a | Raise e => Raise e end.
#[global] Instance result_fmap : FMap result :=
  λ A B f r, match r with Ok a => Ok (f a) | Raise e => Raise e end.

(** [Result.scalar_one_or_none()]: the single row, [None] when the query
    returned no row, [MultipleResultsFound] when it returned several. *)
Definition scalar_one_or_none {A : Type} (rows : list A) : result (option A) :=
  match rows with
  | [] => Ok None
  | [row] => Ok (Some row)
  | _ :: _ :: _ => Raise MultipleResultsFound
  end.

(** [str(n)] for an [int], as an f-string formats it. *)
Definition str_of_int (n : Z) : string := NilZero.string_of_int (Z.to_int n).

(** [re.fullmatch(r"[A-Z]{2,3}", v)]: the whole string is two or three
    characters, each between [A] and [Z]. *)
Definition in_A_Z (c : ascii) : bool :=
  (nat_of_ascii "A" <=? nat_of_ascii c)%nat && (nat_of_ascii c <=? nat_of_ascii "Z")%nat.

Definition fullmatch_A_Z_2_3 (v : string) : bool :=
  (2 <=? String.length v)%nat && (String.length v <=? 3)%nat
  && forallb in_A_Z (list_ascii_of_string v).

(** Numeric bounds of the schema fields: [Field(ge=0, le=100)] and
    [Field(ge=0)]. *)
Definition ge_0_le_100 (v : Q) : bool := Qle_bool 0 v && Qle_bool v 100.
Definition ge_0 (v : Q) : bool := Qle_bool 0 v.

(** [Field(max_length=255)]. *)
Definition max_length_255 (v : string) : bool := (String.length v <=? 255)%nat.

(** A JSON value that is not [null], as far as the code tells such values
    apart: a string, or a number, boolean, array or object, none of which has
    a method [upper]. *)
Inductive json_value : Type :=
| json_string (v : string)
| json_non_string.

(** The next value of an autoincrement primary key: above every key in use. *)
Definition next_id (ids : list Z) : Z := Z.succ (foldr Z.max 0 ids).

Section Catalog.

(** [MovieStatusEnum] is declared in [database/models.py], which is not part of
    the sources at hand; nothing below inspects its members. *)
Variable MovieStatusEnum : Type.

(** ** Persistent data

    The ORM classes are declared in [database/models.py], which is not part
    of the sources at hand; so are the constraints of the tables, which are
    taken from the specification where a commit can break them (see
    [commit]). *)

(** Modelled from the spec: [CountryModel] (section 3, Data model): a key, a
    code and an optional name. *)
Record CountryModel : Type := {
  country_id : Z;
  country_code : string;
  country_name : option string
}.

(** Modelled from the spec: [GenreModel], [ActorModel] and [LanguageModel]
    (section 3, Data model), three tables with the same columns: a key and a
    name. *)
Record NamedModel : Type := {
  named_id : Z;
  named_name : string
}.
Definition GenreModel : Type := NamedModel.
Definition ActorModel : Type := NamedModel.
Definition LanguageModel : Type := NamedModel.

(** Modelled from the spec: [MovieModel] (section 3, Data model).  A movie
    keeps its country as a foreign key and its genres, actors and languages
    as the keys of the linked rows, in the order in which they were linked.
    The scalar attributes are those of the ORM object, which can hold [None]
    since [update_movie] can assign it; the data model of the specification
    gives each a value, and the store keeps it so (see [movie_constraints]
    and [commit]). *)
Record MovieModel : Type := {
  movie_id : Z;
  movie_name : option string;
  movie_date : option Z;
  movie_score : option Q;
  movie_overview : option string;
  movie_status : option MovieStatusEnum;
  movie_budget : option Q;
  movie_revenue : option Q;
  movie_country : Z;
  movie_genres : list Z;
  movie_actors : list Z;
  movie_languages : list Z
}.

(** The store behind the session [db]. *)
Record DB : Type := {
  movies : list MovieModel;
  countries : list CountryModel;
  genres : list GenreModel;
  actors : list ActorModel;
  languages : list LanguageModel
}.

(** ** Response schemas *)

Record MovieListItemSchema : Type := {
  item_id : Z;
  item_name : string;
  item_date : Z;
  item_score : Q;
  item_overview : string
}.

Record MovieListResponseSchema : Type := {
  resp_movies : list MovieListItemSchema;
  prev_page : option string;
  next_page : option string;
  total_pages : Z;
  total_items : Z
}.

Record CountrySchema : Type := {
  cs_id : Z;
  cs_name : option string;
  cs_code : string
}.

(** [GenreSchema], [ActorSchema] and [LanguageSchema]. *)
Record NamedSchema : Type := {
  ns_id : Z;
  ns_name : string
}.

Record MovieDetailSchema : Type := {
  detail_id : Z;
  detail_name : string;
  detail_date : Z;
  detail_score : Q;
  detail_overview : string;
  detail_status : MovieStatusEnum;
  detail_budget : Q;
  detail_revenue : Q;
  detail_country : CountrySchema;
  detail_languages : list NamedSchema;
  detail_genres : list NamedSchema;
  detail_actors : list NamedSchema
}.

(** [MovieListItemSchema(id=..., name=..., date=..., score=..., overview=...)]:
    pydantic checks the keyword arguments against the declared fields, none
    of which admits [None], and [score] against [Field(ge=0, le=100)]. *)
Definition MovieListItemSchema_init (id : Z) (name : option string)
    (date : option Z) (score : option Q) (overview : option string)
  : result MovieListItemSchema :=
  match name, date, score, overview with
  | Some n, Some d, Some s, Some o =>
      if ge_0_le_100 s
      then Ok {| item_id := id; item_name := n; item_date := d;
                 item_score := s; item_overview := o |}
      else Raise ValidationError
  | _, _, _, _ => Raise ValidationError
  end.

(** ** GET /movies/ *)

(** [order_by(desc(MovieModel.id))]. *)
Definition id_desc (m1 m2 : MovieModel) : Prop := movie_id m2 ≤ movie_id m1.

#[global] Instance id_desc_dec : RelDecision id_desc.
Proof. intros m1 m2. unfold id_desc. apply _. Defined.

Definition order_by_id_desc (rows : list MovieModel) : list MovieModel :=
  merge_sort id_desc rows.

Definition base_url : string := "/theater".

Definition page_url (page per_page : Z) : string :=
  base_url +:+ "/movies/?page=" +:+ str_of_int page
           +:+ "&per_page=" +:+ str_of_int per_page.

(** [get_movies_list].  The framework admits [page >= 1] and
    [1 <= per_page <= 20] only ([Query(1, ge=1)], [Query(10, ge=1, le=20)]);
    there the offset and the limit are natural numbers. *)
Definition get_movies_list (db : DB) (page per_page : Z)
  : result MovieListResponseSchema :=
  let total_items := Z.of_nat (length (movies db)) in
  let total_pages := (total_items + per_page - 1) / per_page in
  if total_items =? 0 then Raise (HTTPException 404)
  else if page >? total_pages then Raise (HTTPException 404)
  else
    let rows :=
      take (Z.to_nat per_page)
           (drop (Z.to_nat (per_page * (page - 1)))
                 (order_by_id_desc (movies db))) in
    movies_data ←
      mapM (λ movie, MovieListItemSchema_init (movie_id movie)
                       (movie_name movie) (movie_date movie)
                       (movie_score movie) (movie_overview movie)) rows;
    let prev_page :=
      if page >? 1 then Some (page_url (page - 1) per_page) else None in
    let next_page :=
      if page <? total_pages then Some (page_url (page + 1) per_page)
      else None in
    Ok {| resp_movies := movies_data;
          prev_page := prev_page;
          next_page := next_page;
          total_pages := total_pages;
          total_items := total_items |}.

(** ** GET /movies/{movie_id}/ *)

(** The relationship attributes of a movie as [joinedload], [selectinload] and
    [db.refresh] load them: the country row of the foreign key, and the rows of
    the linked keys. *)
Definition load_country (db : DB) (movie : MovieModel) : option CountryModel :=
  head (filter (λ c, country_id c = movie_country movie) (countries db)).

Definition load_named (table : list NamedModel) (keys : list Z)
  : list NamedModel :=
  keys ≫= λ k, filter (λ r, named_id r = k) table.

Definition CountrySchema_of (c : CountryModel) : CountrySchema :=
  {| cs_id := country_id c; cs_name := country_name c;
     cs_code := country_code c |}.

Definition NamedSchema_of (r : NamedModel) : NamedSchema :=
  {| ns_id := named_id r; ns_name := named_name r |}.

(** [MovieDetailSchema.model_validate(movie)], reading the attributes of the
    ORM object ([from_attributes]): the scalar fields and [country] admit no
    [None], and [MovieBase] bounds [score], [budget] and [revenue]. *)
Definition MovieDetailSchema_model_validate (db : DB) (movie : MovieModel)
  : result MovieDetailSchema :=
  match movie_name movie, movie_date movie, movie_score movie,
        movie_overview movie, movie_status movie, movie_budget movie,
        movie_revenue movie, load_country db movie with
  | Some n, Some d, Some s, Some o, Some st, Some b, Some r, Some c =>
      if ge_0_le_100 s && ge_0 b && ge_0 r
      then Ok {| detail_id := movie_id movie;
                 detail_name := n;
                 detail_date := d;
                 detail_score := s;
                 detail_overview := o;
                 detail_status := st;
                 detail_budget := b;
                 detail_revenue := r;
                 detail_country := CountrySchema_of c;
                 detail_languages :=
                   NamedSchema_of <$> load_named (languages db) (movie_languages movie);
                 detail_genres :=
                   NamedSchema_of <$> load_named (genres db) (movie_genres movie);
                 detail_actors :=
                   NamedSchema_of <$> load_named (actors db) (movie_actors movie) |}
      else Raise ValidationError
  | _, _, _, _, _, _, _, _ => Raise ValidationError
  end.

Definition get_movie (db : DB) (id : Z) : result MovieDetailSchema :=
  movie ← scalar_one_or_none (filter (λ m, movie_id m = id) (movies db));
  match movie with
  | None => Raise (HTTPException 404)
  | Some movie => MovieDetailSchema_model_validate db movie
  end.

(** ** POST /movies/ *)

Record MovieCreateSchema : Type := {
  create_name : string;
  create_date : Z;
  create_score : Q;
  create_overview : string;
  create_status : MovieStatusEnum;
  create_budget : Q;
  create_revenue : Q;
  create_country : string;
  create_genres : list string;
  create_actors : list string;
  create_languages : list string
}.

(** The country of the payload: the row with that code, or a new row with
    no name, added to the table and flushed. *)
Definition resolve_country (code : string) (table : list CountryModel)
  : result (CountryModel * list CountryModel) :=
  country ← scalar_one_or_none (filter (λ c, country_code c = code) table);
  match country with
  | Some country => Ok (country, table)
  | None =>
      let country := {| country_id := next_id (country_id <$> table);
                        country_code := code;
                        country_name := None |} in
      Ok (country, table ++ [country])
  end.

(** The loop over [movie_in.genres] (and the same loops over the actors and
    the languages): each name is looked up in the table as the preceding
    iterations left it, a missing row is added and flushed, and the row is
    appended to the result; a name that the payload repeats yields its row
    once for each occurrence, as the [append] to the Python list does. *)
Fixpoint resolve_names (names : list string) (table : list NamedModel)
  : result (list NamedModel * list NamedModel) :=
  match names with
  | [] => Ok ([], table)
  | name :: names =>
      row ← scalar_one_or_none (filter (λ r, named_name r = name) table);
      let '(row, table) :=
        match row with
        | Some row => (row, table)
        | None =>
            let row := {| named_id := next_id (named_id <$> table);
                          named_name := name |} in
            (row, table ++ [row])
        end in
      '(rows, table) ← resolve_names names table;
      Ok (row :: rows, table)
  end.

(** The statements of [create_movie] up to [db.add(movie)]: what the session
    holds when [db.commit()] is reached. *)
Definition create_movie_session (db : DB) (movie_in : MovieCreateSchema)
  : result (MovieModel * DB) :=
  existing_movie ←
    scalar_one_or_none
      (filter (λ m, movie_name m = Some (create_name movie_in)
                    ∧ movie_date m = Some (create_date movie_in)) (movies db));
  match existing_movie with
  | Some _ => Raise (HTTPException HTTP_409_CONFLICT)
  | None =>
      '(country, countries') ← resolve_country (create_country movie_in) (countries db);
      '(genres_, genres') ← resolve_names (create_genres movie_in) (genres db);
      '(actors_, actors') ← resolve_names (create_actors movie_in) (actors db);
      '(languages_, languages') ← resolve_names (create_languages movie_in) (languages db);
      let movie :=
        {| movie_id := next_id (movie_id <$> movies db);
           movie_name := Some (create_name movie_in);
           movie_date := Some (create_date movie_in);
           movie_score := Some (create_score movie_in);
           movie_overview := Some (create_overview movie_in);
           movie_status := Some (create_status movie_in);
           movie_budget := Some (create_budget movie_in);
           movie_revenue := Some (create_revenue movie_in);
           movie_country := country_id country;
           movie_genres := named_id <$> genres_;
           movie_actors := named_id <$> actors_;
           movie_languages := named_id <$> languages_ |} in
      Ok (movie, {| movies := movies db ++ [movie];
                    countries := countries';
                    genres := genres';
                    actors := actors';
                    languages := languages' |})
  end.

(** [create_movie]: the store after the request, and the response. *)
Definition create_movie (db : DB) (movie_in : MovieCreateSchema)
  : DB * result MovieDetailSchema :=
  match create_movie_session db movie_in with
  | Raise e => (db, Raise e)
  | Ok (movie, db') => (db', MovieDetailSchema_model_validate db' movie)
  end.

(** ** DELETE /movies/{movie_id}/ *)

Definition delete_movie (db : DB) (id : Z) : DB * result unit :=
  match scalar_one_or_none (filter (λ m, movie_id m = id) (movies db)) with
  | Raise e => (db, Raise e)
  | Ok None => (db, Raise (HTTPException 404))
  | Ok (Some movie) =>
      ({| movies := filter (λ m, movie_id m ≠ movie_id movie) (movies db);
          countries := countries db;
          genres := genres db;
          actors := actors db;
          languages := languages db |}, Ok ())
  end.

(** ** PATCH /movies/{movie_id}/ *)

(** An instance of [MovieUpdateSchema].  For each field, [None] says that the
    field is not in [model_fields_set] (the body did not supply it) and
    [Some v] that it was supplied with value [v], where [v] is [None] for a
    JSON [null]. *)
Record MovieUpdateSchema : Type := {
  update_name : option (option string);
  update_date : option (option Z);
  update_score : option (option Q);
  update_overview : option (option string);
  update_status : option (option MovieStatusEnum);
  update_budget : option (option Q);
  update_revenue : option (option Q)
}.

(** An item [(key, value)] of the dictionary [update_data]. *)
Inductive item : Type :=
| name_item (value : option string)
| date_item (value : option Z)
| score_item (value : option Q)
| overview_item (value : option string)
| status_item (value : option MovieStatusEnum)
| budget_item (value : option Q)
| revenue_item (value : option Q).

(** [movie_data.model_dump(exclude_unset=True)]: the fields that were set, in
    the order of their declaration, whatever their value. *)
Definition model_dump_exclude_unset (movie_data : MovieUpdateSchema)
  : list item :=
  omap id [ name_item <$> update_name movie_data;
            date_item <$> update_date movie_data;
            score_item <$> update_score movie_data;
            overview_item <$> update_overview movie_data;
            status_item <$> update_status movie_data;
            budget_item <$> update_budget movie_data;
            revenue_item <$> update_revenue movie_data ].

(** [setattr(movie, key, value)]. *)
Definition setattr (movie : MovieModel) (kv : item) : MovieModel :=
  let '{| movie_id := i; movie_name := n; movie_date := d; movie_score := s;
          movie_overview := o; movie_status := st; movie_budget := b;
          movie_revenue := r; movie_country := c; movie_genres := gs;
          movie_actors := acs; movie_languages := ls |} := movie in
  match kv with
  | name_item v => Build_MovieModel i v d s o st b r c gs acs ls
  | date_item v => Build_MovieModel i n v s o st b r c gs acs ls
  | score_item v => Build_MovieModel i n d v o st b r c gs acs ls
  | overview_item v => Build_MovieModel i n d s v st b r c gs acs ls
  | status_item v => Build_MovieModel i n d s o v b r c gs acs ls
  | budget_item v => Build_MovieModel i n d s o st v r c gs acs ls
  | revenue_item v => Build_MovieModel i n d s o st b v c gs acs ls
  end.

Definition updated_message : string := "Movie updated successfully.".

(** Modelled from the spec: the constraints of the movie table (section 3,
    Data model and its invariants): every scalar column holds a value, and the
    (name, date) pair of a movie is unique. *)
Definition movie_constraints (rows : list MovieModel) : Prop :=
  Forall (λ m, is_Some (movie_name m) ∧ is_Some (movie_date m)
               ∧ is_Some (movie_score m) ∧ is_Some (movie_overview m)
               ∧ is_Some (movie_status m) ∧ is_Some (movie_budget m)
               ∧ is_Some (movie_revenue m)) rows
  ∧ NoDup ((λ m, (movie_name m, movie_date m)) <$> rows).

#[global] Instance movie_constraints_dec rows : Decision (movie_constraints rows).
Proof. unfold movie_constraints. apply _. Defined.

(** Modelled from the spec: [db.commit()] of a change of the movie table from
    [rows] to [rows'].  The store enforces its constraints: a commit that
    would break them raises [IntegrityError], and the session is rolled
    back.  Only [update_movie] can write such a change: the commits of
    [create_movie] and [delete_movie] keep the constraints (lemmas
    [create_movie_keeps_constraints] and [delete_movie_keeps_constraints]). *)
Definition commit (rows rows' : list MovieModel) : result unit :=
  if decide (movie_constraints rows ∧ ¬ movie_constraints rows')
  then Raise IntegrityError else Ok ().

(** [update_movie]: the store after the request, and the [detail] of the
    response.  The commit writes the attributes of [movie] to the row of
    its key. *)
Definition update_movie (db : DB) (id : Z) (movie_data : MovieUpdateSchema)
  : DB * result string :=
  match scalar_one_or_none (filter (λ m, movie_id m = id) (movies db)) with
  | Raise e => (db, Raise e)
  | Ok None => (db, Raise (HTTPException 404))
  | Ok (Some movie) =>
      let update_data := model_dump_exclude_unset movie_data in
      let movie' := foldl setattr movie update_data in
      let movies' :=
        (λ m, if decide (movie_id m = movie_id movie) then movie' else m)
          <$> movies db in
      match commit (movies db) movies' with
      | Raise e => (db, Raise e)
      | Ok _ =>
          ({| movies := movies';
              countries := countries db;
              genres := genres db;
              actors := actors db;
              languages := languages db |}, Ok updated_message)
      end
  end.

(** ** Validation of request bodies

    pydantic validates the fields of a body in the order of their
    declaration.  A field whose value breaks a constraint, or whose validator
    raises [ValueError], adds an error and validation goes on; any other
    exception leaves validation at once and reaches the framework.  With at
    least one error the body is rejected. *)

Inductive field_outcome : Type :=
| field_ok
| field_error
| field_raise (e : exn).

Definition constraint (holds : bool) : field_outcome :=
  if holds then field_ok else field_error.

Definition validator {A : Type} (r : result A) : field_outcome :=
  match r with
  | Ok _ => field_ok
  | Raise ValueError => field_error
  | Raise e => field_raise e
  end.

Fixpoint validate_fields (errors : bool) (fields : list field_outcome)
  : result unit :=
  match fields with
  | [] => if errors then Raise RequestValidationError else Ok ()
  | field_ok :: fields => validate_fields errors fields
  | field_error :: fields => validate_fields true fields
  | field_raise e :: _ => Raise e
  end.

(** [MovieCreateSchema.date_not_too_far]. *)
Definition MovieCreateSchema_date_not_too_far (today v : Z) : result Z :=
  if v >? today + 365 then Raise ValueError else Ok v.

(** [MovieCreateSchema.country_alpha3]. *)
Definition country_alpha3 (v : string) : result string :=
  if negb (fullmatch_A_Z_2_3 v) then Raise ValueError else Ok v.

(** Validation of the body of POST /movies/ against [MovieCreateSchema].
    The validators return their argument, so the instance holds the values of
    the body. *)
Definition MovieCreateSchema_validate (today : Z) (body : MovieCreateSchema)
  : result MovieCreateSchema :=
  validate_fields false
    [ constraint (max_length_255 (create_name body));
      validator (MovieCreateSchema_date_not_too_far today (create_date body));
      constraint (ge_0_le_100 (create_score body));
      constraint (ge_0 (create_budget body));
      constraint (ge_0 (create_revenue body));
      validator (country_alpha3 (create_country body)) ];;
  Ok body.

(** The endpoint: the body is validated, then handed to the handler. *)
Definition post_movies (today : Z) (db : DB) (body : MovieCreateSchema)
  : DB * result MovieDetailSchema :=
  match MovieCreateSchema_validate today body with
  | Raise e => (db, Raise e)
  | Ok movie_in => create_movie db movie_in
  end.

(** The body of PATCH /movies/{movie_id}/ as the validators of
    [MovieUpdateSchema] receive it: the declared fields, and the key
    [country], which the schema does not declare.  Each is [None] when the key
    is absent, [Some None] for a JSON [null].  The declared fields hold JSON
    values of their kind; the value of [country] is any JSON value. *)
Record MovieUpdateBody : Type := {
  body_name : option (option string);
  body_date : option (option Z);
  body_score : option (option Q);
  body_overview : option (option string);
  body_status : option (option MovieStatusEnum);
  body_budget : option (option Q);
  body_revenue : option (option Q);
  body_country : option (option json_value)
}.

(** [str.upper]: the case mapping of the Python runtime. *)
Variable upper : string → string.

(** [MovieUpdateSchema.date_not_too_far], on a value that may be [None]:
    [None > date] raises [TypeError]. *)
Definition MovieUpdateSchema_date_not_too_far (today : Z) (v : option Z)
  : result (option Z) :=
  match v with
  | None => Raise TypeError
  | Some d => if d >? today + 365 then Raise ValueError else Ok (Some d)
  end.

(** The field [date] of [MovieUpdateSchema].  In the class body the line
    [date: Optional[date] = None] binds the name [date] to [None] before its
    annotation is evaluated, so the annotation is [Optional[None]]: the field
    admits [None] only, and a date is a type error.  The value that the field
    admits is then passed to the validator. *)
Definition update_date_field (today : Z) (v : option Z) : field_outcome :=
  match v with
  | Some _ => field_error
  | None => validator (MovieUpdateSchema_date_not_too_far today v)
  end.

(** [MovieUpdateSchema.validate_country], run on the raw body before the
    fields.  [values.get("country")] is [None] for an absent key and for a
    [null]; [country.upper()] on a value that is not a string raises
    [AttributeError]. *)
Definition validate_country (values : MovieUpdateBody)
  : result MovieUpdateBody :=
  match mjoin (body_country values) with
  | Some (json_string country) =>
      let country := upper country in
      if negb (fullmatch_A_Z_2_3 country) then Raise ValueError
      else Ok {| body_name := body_name values;
                 body_date := body_date values;
                 body_score := body_score values;
                 body_overview := body_overview values;
                 body_status := body_status values;
                 body_budget := body_budget values;
                 body_revenue := body_revenue values;
                 body_country := Some (Some (json_string country)) |}
  | Some json_non_string => Raise AttributeError
  | None => Ok values
  end.

(** A constraint of an [Optional] field applies to a value that is there. *)
Definition optional_constraint {A : Type} (holds : A → bool)
    (field : option (option A)) : field_outcome :=
  match field with
  | Some (Some v) => constraint (holds v)
  | _ => field_ok
  end.

(** Validation of the body of PATCH /movies/{movie_id}/ against
    [MovieUpdateSchema]: the model validator first, then the declared fields
    that the body supplies; the key [country] is not a field and is left
    out of the instance. *)
Definition MovieUpdateSchema_validate (today : Z) (body : MovieUpdateBody)
  : result MovieUpdateSchema :=
  match validate_country body with
  | Raise ValueError => Raise RequestValidationError
  | Raise e => Raise e
  | Ok values =>
      validate_fields false
        [ optional_constraint max_length_255 (body_name values);
          match body_date values with
          | Some v => update_date_field today v
          | None => field_ok
          end;
          optional_constraint ge_0_le_100 (body_score values);
          optional_constraint ge_0 (body_budget values);
          optional_constraint ge_0 (body_revenue values) ];;
      Ok {| update_name := body_name values;
            update_date := body_date values;
            update_score := body_score values;
            update_overview := body_overview values;
            update_status := body_status values;
            update_budget := body_budget values;
            update_revenue := body_revenue values |}
  end.

Definition patch_movies (today : Z) (db : DB) (id : Z) (body : MovieUpdateBody)
  : DB * result string :=
  match MovieUpdateSchema_validate today body with
  | Raise e => (db, Raise e)
  | Ok movie_data => update_movie db id movie_data
  end.

(** ** Vocabulary of the statements *)

(** [ceil(n / d)] for a positive [d], through the rationals. *)
Definition ceil_div (n d : Z) : Z := Qceiling (n # Z.to_pos d).

(** The number of movies in the catalog. *)
Definition count_movies (db : DB) : Z := Z.of_nat (length (movies db)).

(** A row that satisfies the data model of the specification in the columns
    that a list item shows: they hold values, and the score is in range. *)
Definition listable (m : MovieModel) : Prop :=
  is_Some (movie_name m) ∧ is_Some (movie_date m) ∧ is_Some (movie_overview m)
  ∧ ∃ s, movie_score m = Some s ∧ (0 <= s)%Q ∧ (s <= 100)%Q.

(** The list item [it] is the summary of the row [m]. *)
Definition summarizes (it : MovieListItemSchema) (m : MovieModel) : Prop :=
  item_id it = movie_id m
  ∧ movie_name m = Some (item_name it)
  ∧ movie_date m = Some (item_date it)
  ∧ movie_score m = Some (item_score it)
  ∧ movie_overview m = Some (item_overview it).

(** The value that a supplied, non-null field of an update gives, and the
    old value otherwise. *)
Definition supplied {A : Type} (field : option (option A)) (old : A) : A :=
  match field with
  | Some (Some v) => v
  | _ => old
  end.

(** No field of the update is supplied as a JSON [null]. *)
Definition supplies_no_null (movie_data : MovieUpdateSchema) : Prop :=
  update_name movie_data ≠ Some None
  ∧ update_date movie_data ≠ Some None
  ∧ update_score movie_data ≠ Some None
  ∧ update_overview movie_data ≠ Some None
  ∧ update_status movie_data ≠ Some None
  ∧ update_budget movie_data ≠ Some None
  ∧ update_revenue movie_data ≠ Some None.

(** The detail [d] with the supplied scalar fields replaced. *)
Definition update_detail (movie_data : MovieUpdateSchema)
    (d : MovieDetailSchema) : MovieDetailSchema :=
  {| detail_id := detail_id d;
     detail_name := supplied (update_name movie_data) (detail_name d);
     detail_date := supplied (update_date movie_data) (detail_date d);
     detail_score := supplied (update_score movie_data) (detail_score d);
     detail_overview := supplied (update_overview movie_data) (detail_overview d);
     detail_status := supplied (update_status movie_data) (detail_status d);
     detail_budget := supplied (update_budget movie_data) (detail_budget d);
     detail_revenue := supplied (update_revenue movie_data) (detail_revenue d);
     detail_country := detail_country d;
     detail_languages := detail_languages d;
     detail_genres := detail_genres d;
     detail_actors := detail_actors d |}.

(** The movie [m] has the name and the date of the payload. *)
Definition same_identity (movie_in : MovieCreateSchema) (m : MovieModel) : Prop :=
  movie_name m = Some (create_name movie_in)
  ∧ movie_date m = Some (create_date movie_in).

(** The uniqueness invariants of the data model: primary keys, the
    (name, date) pair of a movie, the code of a country, the name of a genre,
    an actor or a language.  Two movies whose name and date are both null
    count as a duplicate pair. *)
Definition unique_named (table : list NamedModel) : Prop :=
  NoDup (named_id <$> table) ∧ NoDup (named_name <$> table).

Definition unique_keys (db : DB) : Prop :=
  NoDup (movie_id <$> movies db)
  ∧ NoDup ((λ m, (movie_name m, movie_date m)) <$> movies db)
  ∧ NoDup (country_id <$> countries db)
  ∧ NoDup (country_code <$> countries db)
  ∧ unique_named (genres db)
  ∧ unique_named (actors db)
  ∧ unique_named (languages db).

(** How a create resolves its country: [fk] is the key of a row [c] of the
    new table with the code of the payload; either [c] was in the table, which
    is unchanged, or no row had the code and [c], with no name, is the one row
    added. *)
Definition country_resolved (code : string) (table table' : list CountryModel)
    (fk : Z) : Prop :=
  ∃ c, c ∈ table' ∧ country_code c = code ∧ country_id c = fk
       ∧ ((c ∈ table ∧ table' = table)
          ∨ ((∀ c0, c0 ∈ table → country_code c0 ≠ code)
             ∧ table' = table ++ [c] ∧ country_name c = None)).

(** How a create resolves a list of names: [fks] are the keys of rows of the
    new table that bear the names, in order; a name that a row of the table
    bore is resolved to that row; the rows added bear exactly the names that
    no row bore, each once. *)
Definition names_resolved (names : list string) (table table' : list NamedModel)
    (fks : list Z) : Prop :=
  ∃ rows new,
    table' = table ++ new
    ∧ fks = named_id <$> rows
    ∧ named_name <$> rows = names
    ∧ Forall (λ r, r ∈ table') rows
    ∧ Forall (λ r, named_name r ∈ named_name <$> table → r ∈ table) rows
    ∧ NoDup (named_name <$> new)
    ∧ (∀ n, n ∈ named_name <$> new ↔ n ∈ names ∧ n ∉ named_name <$> table).

(** A country code of two or three uppercase letters. *)
Definition uppercase_code (v : string) : Prop :=
  (String.length v = 2 ∨ String.length v = 3)%nat
  ∧ Forall (λ c, (nat_of_ascii "A" ≤ nat_of_ascii c ≤ nat_of_ascii "Z")%nat)
      (list_ascii_of_string v).

(** A field constraint of the create schema fails on the body. *)
Definition create_violation (today : Z) (body : MovieCreateSchema) : Prop :=
  today + 365 < create_date body
  ∨ ¬ uppercase_code (create_country body)
  ∨ (create_score body < 0 ∨ 100 < create_score body)%Q
  ∨ (create_budget body < 0)%Q
  ∨ (create_revenue body < 0)%Q
  ∨ (255 < String.length (create_name body))%nat.

(** A rule of the update schema fails on a value that the body supplies:
    the body supplies a date, or a country string that is malformed once
    uppercased, or a score, budget, revenue or name out of its bounds. *)
Definition update_violation (body : MovieUpdateBody) : Prop :=
  (∃ v, body_date body = Some (Some v))
  ∨ (∃ v, body_country body = Some (Some (json_string v))
          ∧ ¬ uppercase_code (upper v))
  ∨ (∃ v, body_score body = Some (Some v) ∧ (v < 0 ∨ 100 < v)%Q)
  ∨ (∃ v, body_budget body = Some (Some v) ∧ (v < 0)%Q)
  ∨ (∃ v, body_revenue body = Some (Some v) ∧ (v < 0)%Q)
  ∨ (∃ v, body_name body = Some (Some v) ∧ (255 < String.length v)%nat).

(** The instance that an accepted update body yields: its declared fields. *)
Definition fields_of (body : MovieUpdateBody) : MovieUpdateSchema :=
  {| update_name := body_name body;
     update_date := body_date body;
     update_score := body_score body;
     update_overview := body_overview body;
     update_status := body_status body;
     update_budget := body_budget body;
     update_revenue := body_revenue body |}.

(** A test holds of the value of an optional field, when there is one. *)
Definition optional_holds {A : Type} (holds : A → bool)
    (field : option (option A)) : bool :=
  match field with
  | Some (Some v) => holds v
  | _ => true
  end.

(** The value of the key [country], when it is a string, is well formed once
    uppercased. *)
Definition country_holds (field : option (option json_value)) : bool :=
  match field with
  | Some (Some (json_string v)) => fullmatch_A_Z_2_3 (upper v)
  | _ => true
  end.

(** The body does not have the key [date]. *)
Definition date_absent (field : option (option Z)) : bool :=
  match field with
  | None => true
  | Some _ => false
  end.

(** ** Arithmetic and list facts *)

Lemma ceil_div_eq n d : 0 < d → (n + d - 1) / d = ceil_div n d.
Proof.
  intros Hd. unfold ceil_div, Qceiling, Qfloor. simpl.
  rewrite Z2Pos.id by done.
  symmetry. apply Z.div_unique with (r := d - 1 - (- n) mod d).
  - left. pose proof (Z.mod_pos_bound (- n) d Hd). lia.
  - pose proof (Z.div_mod (- n) d). lia.
Qed.

Lemma ge_0_le_100_spec v : ge_0_le_100 v = true ↔ (0 <= v)%Q ∧ (v <= 100)%Q.
Proof.
  unfold ge_0_le_100. rewrite andb_true_iff, !Qle_bool_iff. done.
Qed.

Lemma ge_0_spec v : ge_0 v = true ↔ (0 <= v)%Q.
Proof. unfold ge_0. apply Qle_bool_iff. Qed.

#[global] Instance id_desc_trans : Transitive id_desc.
Proof. unfold id_desc. intros m1 m2 m3. lia. Qed.

#[global] Instance id_desc_total : Total id_desc.
Proof. unfold id_desc. intros m1 m2. lia. Qed.

Lemma order_by_id_desc_sorted rows : StronglySorted id_desc (order_by_id_desc rows).
Proof. apply StronglySorted_merge_sort; apply _. Qed.

Lemma order_by_id_desc_perm rows : order_by_id_desc rows ≡ₚ rows.
Proof. apply merge_sort_Permutation. Qed.

Lemma MovieListItemSchema_init_listable m :
  listable m →
  ∃ it, MovieListItemSchema_init (movie_id m) (movie_name m) (movie_date m)
          (movie_score m) (movie_overview m) = Ok it
        ∧ summarizes it m.
Proof.
  intros ([n Hn] & [d Hd] & [o Ho] & s & Hs & Hs0 & Hs100).
  unfold MovieListItemSchema_init. rewrite Hn, Hd, Ho, Hs.
  assert (ge_0_le_100 s = true) as -> by by apply ge_0_le_100_spec.
  eexists. split; [done|]. by repeat split.
Qed.

Lemma mapM_items rows :
  Forall listable rows →
  ∃ items,
    mapM (λ movie, MovieListItemSchema_init (movie_id movie)
                     (movie_name movie) (movie_date movie)
                     (movie_score movie) (movie_overview movie)) rows
    = Ok items
    ∧ Forall2 summarizes items rows.
Proof.
  induction 1 as [|m rows Hm _ (items & Hitems & IH)]; simpl.
  - exists []. by split.
  - destruct (MovieListItemSchema_init_listable m Hm) as (it & -> & Hit).
    simpl. rewrite Hitems. simpl. exists (it :: items). split; [done|].
    by constructor.
Qed.

(** The two guards of [get_movies_list], and what it evaluates to past
    them. *)
Lemma get_movies_list_raise_404 db page per_page :
  0 < per_page →
  movies db = [] ∨ page > ceil_div (count_movies db) per_page →
  get_movies_list db page per_page = Raise NotFound.
Proof.
  intros Hpp H. unfold get_movies_list.
  rewrite (ceil_div_eq _ _ Hpp). fold (count_movies db).
  destruct (Z.eqb_spec (count_movies db) 0) as [|Hne]; [done|].
  destruct H as [H|H].
  - unfold count_movies in Hne. by rewrite H in Hne.
  - destruct (Z.gtb_spec page (ceil_div (count_movies db) per_page)); [done|lia].
Qed.

Lemma get_movies_list_past_guards db page per_page :
  0 < per_page →
  movies db ≠ [] → page ≤ ceil_div (count_movies db) per_page →
  get_movies_list db page per_page =
    (movies_data ←
       mapM (λ movie, MovieListItemSchema_init (movie_id movie)
                        (movie_name movie) (movie_date movie)
                        (movie_score movie) (movie_overview movie))
         (take (Z.to_nat per_page)
            (drop (Z.to_nat (per_page * (page - 1)))
               (order_by_id_desc (movies db))));
     Ok {| resp_movies := movies_data;
           prev_page := if page >? 1 then Some (page_url (page - 1) per_page)
                        else None;
           next_page := if page <? ceil_div (count_movies db) per_page
                        then Some (page_url (page + 1) per_page) else None;
           total_pages := ceil_div (count_movies db) per_page;
           total_items := count_movies db |}).
Proof.
  intros Hpp Hne Hpage. unfold get_movies_list.
  rewrite (ceil_div_eq _ _ Hpp). fold (count_movies db).
  destruct (Z.eqb_spec (count_movies db) 0) as [H0|_].
  { unfold count_movies in H0. destruct (movies db); [done|simpl in H0; lia]. }
  destruct (Z.gtb_spec page (ceil_div (count_movies db) per_page)); [lia|done].
Qed.

(** ** Properties of the list operation *)

(** C1. In a catalog with at least one movie whose rows satisfy the data
    model, for [page >= 1], [1 <= per_page <= 20] and [page <= total_pages],
    where [total_pages = ceil(total_items / per_page)] and [total_items]
    counts all movies, the list operation succeeds; its items summarize, in
    order, the movies sorted by descending id with the first
    [per_page * (page - 1)] skipped and at most [per_page] kept. *)
Theorem get_movies_list_page db page per_page :
  movies db ≠ [] →
  Forall listable (movies db) →
  1 ≤ page →
  1 ≤ per_page ≤ 20 →
  page ≤ ceil_div (count_movies db) per_page →
  ∃ resp sorted,
    get_movies_list db page per_page = Ok resp
    ∧ sorted ≡ₚ movies db
    ∧ StronglySorted (λ m1 m2, movie_id m2 ≤ movie_id m1) sorted
    ∧ Forall2 summarizes (resp_movies resp)
        (take (Z.to_nat per_page)
           (drop (Z.to_nat (per_page * (page - 1))) sorted))
    ∧ Z.of_nat (length (resp_movies resp)) ≤ per_page
    ∧ total_items resp = count_movies db
    ∧ total_pages resp = ceil_div (count_movies db) per_page.
Proof.
  intros Hne Hrows Hpage Hpp Hle.
  rewrite get_movies_list_past_guards by (done || lia).
  set (rows := take _ _).
  destruct (mapM_items rows) as (items & Hitems & Hsum).
  { apply Forall_take, Forall_drop.
    by rewrite (order_by_id_desc_perm (movies db)). }
  rewrite Hitems. simpl.
  eexists _, (order_by_id_desc (movies db)). split; [done|]. simpl.
  split; [apply order_by_id_desc_perm|].
  split; [apply order_by_id_desc_sorted|].
  split; [done|].
  split; [|done].
  rewrite (Forall2_length _ _ _ Hsum). subst rows.
  rewrite length_take. lia.
Qed.

(** C2. For [page >= 1] and [1 <= per_page <= 20], the list operation fails
    with NotFound exactly when the catalog has no movie or the page exceeds
    [total_pages = ceil(total_items / per_page)]. *)
Theorem get_movies_list_not_found_iff db page per_page :
  1 ≤ page →
  1 ≤ per_page ≤ 20 →
  get_movies_list db page per_page = Raise NotFound
  ↔ movies db = [] ∨ page > ceil_div (count_movies db) per_page.
Proof.
  intros Hpage Hpp. split.
  - intros Hget.
    destruct (decide (movies db = [])) as [|Hne]; [by left|]. right.
    destruct (decide (page ≤ ceil_div (count_movies db) per_page)) as [Hle|]; [|lia].
    rewrite get_movies_list_past_guards in Hget by (done || lia).
    destruct (mapM _ _) as [items|e] eqn:Hmap; simpl in Hget; [done|].
    exfalso. clear -Hmap Hget.
    revert e Hget Hmap. generalize (take (Z.to_nat per_page)
      (drop (Z.to_nat (per_page * (page - 1))) (order_by_id_desc (movies db)))).
    intros rows. induction rows as [|m rows IH]; intros e He; simpl; [done|].
    unfold MovieListItemSchema_init at 1.
    destruct (movie_name m), (movie_date m), (movie_score m),
      (movie_overview m); simpl; try (intros [= <-]; done).
    destruct (ge_0_le_100 _); simpl; [|intros [= <-]; done].
    destruct (mapM _ rows) eqn:Hrows; simpl; [done|].
    intros [= <-]. by eapply IH.
  - apply get_movies_list_raise_404. lia.
Qed.

(** C8. In a successful list response, [prev_page] is null exactly when
    [page = 1] and [next_page] is null exactly when [page >= total_pages];
    a link that is there is the absolute path
    [/theater/movies/?page=<n>&per_page=<m>] with [n = page - 1] (for
    [next_page]: [page + 1]) and [m = per_page]. *)
Theorem get_movies_list_links db page per_page resp :
  1 ≤ page →
  1 ≤ per_page ≤ 20 →
  get_movies_list db page per_page = Ok resp →
  (prev_page resp = None ↔ page = 1)
  ∧ (next_page resp = None ↔ total_pages resp ≤ page)
  ∧ (∀ url, prev_page resp = Some url →
       url = "/theater/movies/?page=" +:+ str_of_int (page - 1)
               +:+ "&per_page=" +:+ str_of_int per_page)
  ∧ (∀ url, next_page resp = Some url →
       url = "/theater/movies/?page=" +:+ str_of_int (page + 1)
               +:+ "&per_page=" +:+ str_of_int per_page).
Proof.
  intros Hpage Hpp Hget.
  destruct (decide (movies db = [])) as [He|Hne].
  { rewrite get_movies_list_raise_404 in Hget by (lia || by left). done. }
  destruct (decide (page ≤ ceil_div (count_movies db) per_page)) as [Hle|Hgt].
  2: { rewrite get_movies_list_raise_404 in Hget by (lia || (right; lia)). done. }
  rewrite get_movies_list_past_guards in Hget by (done || lia).
  destruct (mapM _ _) as [items|e]; simpl in Hget; [|done].
  injection Hget as <-. simpl.
  destruct (Z.gtb_spec page 1), (Z.ltb_spec page (ceil_div (count_movies db) per_page));
    repeat split; intros; simplify_eq; try done; try lia.
Qed.

(** ** Queries by a unique key *)

Section select.
Context {A K : Type} {K_eq_dec : EqDecision K} (key : A → K).

Lemma select_none (k : K) (rows : list A) :
  (∀ x, x ∈ rows → key x ≠ k) → filter (λ x, key x = k) rows = [].
Proof.
  induction rows as [|y rows IH]; intros Hk; [done|].
  rewrite filter_cons_False by (apply Hk; left).
  apply IH. intros x Hx. apply Hk. by right.
Qed.

Lemma select_one (k : K) (rows : list A) (x : A) :
  NoDup (key <$> rows) → x ∈ rows → key x = k →
  filter (λ x, key x = k) rows = [x].
Proof.
  induction rows as [|y rows IH]; intros Hnd Hx Hkey.
  { by apply elem_of_nil in Hx. }
  rewrite fmap_cons in Hnd. apply NoDup_cons in Hnd as [Hy Hnd].
  apply elem_of_cons in Hx as [->|Hx].
  - rewrite filter_cons_True by done. f_equal.
    apply select_none. intros z Hz Hzk. apply Hy.
    rewrite Hkey, <-Hzk. by apply list_elem_of_fmap_2.
  - rewrite filter_cons_False; [by apply IH|].
    intros Hyk. apply Hy. rewrite Hyk, <-Hkey. by apply list_elem_of_fmap_2.
Qed.

Lemma key_inj (rows : list A) (x y : A) :
  NoDup (key <$> rows) → x ∈ rows → y ∈ rows → key x = key y → x = y.
Proof using K_eq_dec.
  intros Hnd Hx Hy Hxy.
  pose proof (select_one (key y) rows x Hnd Hx Hxy) as H1.
  pose proof (select_one (key y) rows y Hnd Hy eq_refl) as H2.
  congruence.
Qed.

Lemma select_cases (k : K) (rows : list A) :
  NoDup (key <$> rows) →
  (filter (λ x, key x = k) rows = [] ∧ ∀ x, x ∈ rows → key x ≠ k)
  ∨ (∃ x, filter (λ x, key x = k) rows = [x] ∧ x ∈ rows ∧ key x = k).
Proof.
  intros Hnd.
  destruct (decide (Exists (λ x, key x = k) rows)) as [Hex|Hno].
  - right. apply Exists_exists in Hex as (x & Hx & Hk).
    exists x. split; [by apply select_one|done].
  - left. rewrite <-Forall_Exists_neg, Forall_forall in Hno.
    split; [by apply select_none|done].
Qed.
End select.

Lemma next_id_fresh (ids : list Z) : next_id ids ∉ ids.
Proof.
  assert (∀ x, x ∈ ids → x ≤ foldr Z.max 0 ids) as Hmax.
  { induction ids as [|y ids IH]; intros x Hx; [by apply elem_of_nil in Hx|].
    simpl. apply elem_of_cons in Hx as [->|Hx]; [lia|].
    specialize (IH x Hx). lia. }
  intros Hin. apply Hmax in Hin. unfold next_id in Hin. lia.
Qed.

(** ** Properties of the delete operation *)

(** C7. Where the movie ids are unique (the primary key), the delete
    operation fails with NotFound exactly when no movie has the id, and then
    leaves the store as it was; otherwise it answers with no content, removes
    that movie and nothing else, and a detail fetch of the id then fails with
    NotFound. *)
Theorem delete_movie_not_found_iff db id :
  NoDup (movie_id <$> movies db) →
  (snd (delete_movie db id) = Raise NotFound
   ↔ ¬ ∃ m, m ∈ movies db ∧ movie_id m = id)
  ∧ (snd (delete_movie db id) = Raise NotFound → fst (delete_movie db id) = db)
  ∧ (∀ m, m ∈ movies db → movie_id m = id →
       let db' := fst (delete_movie db id) in
       snd (delete_movie db id) = Ok ()
       ∧ (∀ m', m' ∈ movies db' ↔ m' ∈ movies db ∧ m' ≠ m)
       ∧ countries db' = countries db
       ∧ genres db' = genres db
       ∧ actors db' = actors db
       ∧ languages db' = languages db
       ∧ get_movie db' id = Raise NotFound).
Proof.
  intros Hnd. unfold delete_movie.
  destruct (select_cases movie_id id (movies db) Hnd)
    as [[-> Hnone]|(m & -> & Hm & Hid)]; simpl.
  - split; [|split; [done|]].
    + split; [|done]. intros _ (m & Hm & Hid). by eapply Hnone.
    + intros m Hm Hid. by destruct (Hnone m Hm).
  - split; [|split; [done|]].
    + split; [done|]. intros []. eauto.
    + intros m0 Hm0 Hid0.
      assert (m0 = m) as -> by (apply (key_inj movie_id (movies db)); congruence).
      split; [done|]. split.
      { intros m'. rewrite list_elem_of_filter. split.
        - intros [Hne Hin]. split; [done|]. congruence.
        - intros [Hin Hne]. split; [|done]. intros Heq. apply Hne.
          by apply (key_inj movie_id (movies db)). }
      split_and!; try done.
      unfold get_movie. simpl. rewrite select_none; [done|].
      intros x Hx. apply list_elem_of_filter in Hx as [Hx _]. congruence.
Qed.

(** ** Properties of the update operation *)

Lemma foldl_setattr movie movie_data :
  foldl setattr movie (model_dump_exclude_unset movie_data) =
    {| movie_id := movie_id movie;
       movie_name := default (movie_name movie) (update_name movie_data);
       movie_date := default (movie_date movie) (update_date movie_data);
       movie_score := default (movie_score movie) (update_score movie_data);
       movie_overview := default (movie_overview movie) (update_overview movie_data);
       movie_status := default (movie_status movie) (update_status movie_data);
       movie_budget := default (movie_budget movie) (update_budget movie_data);
       movie_revenue := default (movie_revenue movie) (update_revenue movie_data);
       movie_country := movie_country movie;
       movie_genres := movie_genres movie;
       movie_actors := movie_actors movie;
       movie_languages := movie_languages movie |}.
Proof.
  destruct movie, movie_data as [[] [] [] [] [] [] []]; reflexivity.
Qed.

Lemma select_replaced id movie' (rows : list MovieModel) :
  movie_id movie' = id →
  filter (λ m, movie_id m = id)
    ((λ m, if decide (movie_id m = id) then movie' else m) <$> rows)
  = (λ _, movie') <$> filter (λ m, movie_id m = id) rows.
Proof.
  intros Hid. induction rows as [|m rows IH]; [done|].
  rewrite fmap_cons. destruct (decide (movie_id m = id)) as [Heq|Hne].
  - rewrite !filter_cons_True by done. rewrite fmap_cons. by f_equal.
  - by rewrite !filter_cons_False by done.
Qed.

Lemma validate_fields_ok errors fields :
  validate_fields errors fields = Ok () →
  errors = false ∧ Forall (λ o, o = field_ok) fields.
Proof.
  revert errors. induction fields as [|[| |e] fields IH]; intros errors; simpl.
  - by destruct errors.
  - intros [-> ?]%IH. by split; [|constructor].
  - by intros [? ?]%IH.
  - done.
Qed.

Lemma optional_constraint_ok {A : Type} (holds : A → bool) field v :
  optional_constraint holds field = field_ok →
  field = Some (Some v) → holds v = true.
Proof.
  intros Hok ->. simpl in Hok. unfold constraint in Hok.
  by destruct (holds v).
Qed.

(** What an accepted update body says about the instance. *)
Lemma MovieUpdateSchema_validate_ok today body movie_data :
  MovieUpdateSchema_validate today body = Ok movie_data →
  (∀ v, update_score movie_data = Some (Some v) → ge_0_le_100 v = true)
  ∧ (∀ v, update_budget movie_data = Some (Some v) → ge_0 v = true)
  ∧ (∀ v, update_revenue movie_data = Some (Some v) → ge_0 v = true).
Proof.
  unfold MovieUpdateSchema_validate.
  destruct (validate_country body) as [values|[]]; try done.
  destruct (validate_fields _ _) as [[]|] eqn:Hfields; simpl; [|done].
  intros [= <-]. simpl.
  apply validate_fields_ok in Hfields as [_ Hfields].
  apply Forall_cons in Hfields as [_ Hfields].
  apply Forall_cons in Hfields as [_ Hfields].
  apply Forall_cons in Hfields as [Hs Hfields].
  apply Forall_cons in Hfields as [Hb Hfields].
  apply Forall_cons in Hfields as [Hr _].
  split_and!; intros v Hv.
  - exact (optional_constraint_ok _ _ v Hs Hv).
  - exact (optional_constraint_ok _ _ v Hb Hv).
  - exact (optional_constraint_ok _ _ v Hr Hv).
Qed.

(** Where the movie ids are unique and the update of an existing movie
    answers with the confirmation, each scalar attribute of the row of the
    movie holds the value the payload supplies for it or, for an omitted field,
    its old value; the key, the country and the linked genres, actors and
    languages of the movie, the other movies and the lookup tables are as
    before.  When the payload was accepted by the schema and supplies no null,
    and the detail fetch of the movie succeeded before the update, it succeeds
    after it and shows the supplied values and the old values of all other
    fields. *)
Lemma update_movie_applies db id movie movie_data :
  NoDup (movie_id <$> movies db) →
  movie ∈ movies db →
  movie_id movie = id →
  snd (update_movie db id movie_data) = Ok updated_message →
  let db' := fst (update_movie db id movie_data) in
  (∃ movie',
     Forall2 (λ m m', if decide (movie_id m = id) then m' = movie' else m' = m)
       (movies db) (movies db')
     ∧ movie_id movie' = id
     ∧ movie_name movie' = default (movie_name movie) (update_name movie_data)
     ∧ movie_date movie' = default (movie_date movie) (update_date movie_data)
     ∧ movie_score movie' = default (movie_score movie) (update_score movie_data)
     ∧ movie_overview movie'
       = default (movie_overview movie) (update_overview movie_data)
     ∧ movie_status movie' = default (movie_status movie) (update_status movie_data)
     ∧ movie_budget movie' = default (movie_budget movie) (update_budget movie_data)
     ∧ movie_revenue movie'
       = default (movie_revenue movie) (update_revenue movie_data)
     ∧ movie_country movie' = movie_country movie
     ∧ movie_genres movie' = movie_genres movie
     ∧ movie_actors movie' = movie_actors movie
     ∧ movie_languages movie' = movie_languages movie)
  ∧ countries db' = countries db
  ∧ genres db' = genres db
  ∧ actors db' = actors db
  ∧ languages db' = languages db
  ∧ (∀ today body d,
       MovieUpdateSchema_validate today body = Ok movie_data →
       supplies_no_null movie_data →
       get_movie db id = Ok d →
       get_movie db' id = Ok (update_detail movie_data d)).
Proof.
  intros Hnd Hin <-. unfold update_movie, get_movie.
  rewrite (select_one movie_id _ (movies db) movie) by done. simpl.
  destruct (commit _ _) as [[]|e]; simpl; [intros _|done].
  rewrite foldl_setattr.
  split.
  { match goal with
    | |- context [if decide _ then ?m else _] => exists m
    end.
    split; [|by split_and!].
    clear. induction (movies db) as [|m rows IH]; [constructor|].
    rewrite fmap_cons. constructor; [|done]. by case_decide. }
  split_and!; try done.
  intros today body d Hvalid Hnonull.
  apply MovieUpdateSchema_validate_ok in Hvalid as (Hscore & Hbudget & Hrevenue).
  rewrite select_replaced by done.
  rewrite (select_one movie_id _ (movies db) movie) by done. simpl.
  unfold MovieDetailSchema_model_validate, load_country. simpl.
  destruct Hnonull as (Hn & Hd & Hs & Ho & Hst & Hb & Hr).
  destruct (movie_name movie) as [n|]; [|done].
  destruct (movie_date movie) as [dt|]; [|done].
  destruct (movie_score movie) as [sc|]; [|done].
  destruct (movie_overview movie) as [ov|]; [|done].
  destruct (movie_status movie) as [st|]; [|done].
  destruct (movie_budget movie) as [bu|]; [|done].
  destruct (movie_revenue movie) as [re|]; [|done].
  destruct (head _) as [c|]; [|done].
  destruct (ge_0_le_100 sc) eqn:Hsc; [|done].
  destruct (ge_0 bu) eqn:Hbu; [|done].
  destruct (ge_0 re) eqn:Hre; [|done].
  simpl. intros [= <-].
  destruct movie_data as [un ud us uo ust ub ur]; simpl in *.
  destruct un as [[?|]|]; [|done|];
  destruct ud as [[?|]|]; try done;
  destruct us as [[?|]|]; try done;
  destruct uo as [[?|]|]; try done;
  destruct ust as [[?|]|]; try done;
  destruct ub as [[?|]|]; try done;
  destruct ur as [[?|]|]; try done; simpl;
  rewrite ?Hsc, ?Hbu, ?Hre, ?(Hscore _ eq_refl), ?(Hbudget _ eq_refl),
    ?(Hrevenue _ eq_refl); reflexivity.
Qed.

(** ** Properties of the create operation *)

Lemma resolve_country_spec code table :
  NoDup (country_id <$> table) →
  NoDup (country_code <$> table) →
  ∃ c table',
    resolve_country code table = Ok (c, table')
    ∧ country_resolved code table table' (country_id c)
    ∧ c ∈ table'
    ∧ NoDup (country_id <$> table')
    ∧ NoDup (country_code <$> table').
Proof.
  intros Hid Hcode. unfold resolve_country.
  destruct (select_cases country_code code table Hcode)
    as [[-> Hnone]|(c & -> & Hc & Hcc)]; simpl.
  - eexists _, _. split; [done|].
    assert (∀ (x : CountryModel) l, x ∈ l ++ [x]) as Hlast.
    { intros x l. apply elem_of_app. right. by apply list_elem_of_singleton. }
    split_and!; [|done|..].
    + eexists. split; [done|]. split_and!; [done..|]. right. done.
    + rewrite fmap_app. apply NoDup_app. split_and!; [done| |apply NoDup_singleton].
      intros x Hx ->%list_elem_of_singleton. by apply next_id_fresh in Hx.
    + rewrite fmap_app. apply NoDup_app. split_and!; [done| |apply NoDup_singleton].
      intros x Hx ->%list_elem_of_singleton.
      apply list_elem_of_fmap in Hx as (c0 & Hc0 & Hin). by eapply Hnone.
  - exists c, table. split_and!; try done.
    exists c. split_and!; try done. by left.
Qed.

Lemma resolve_names_spec names table :
  unique_named table →
  ∃ rows table',
    resolve_names names table = Ok (rows, table')
    ∧ names_resolved names table table' (named_id <$> rows)
    ∧ unique_named table'.
Proof.
  revert table. induction names as [|name names IH]; intros table [Hid Hname].
  { exists [], table. split; [done|]. split; [|done].
    exists [], []. rewrite app_nil_r. split_and!; try done; try constructor.
    - by intros ?%elem_of_nil.
    - by intros [?%elem_of_nil _]. }
  simpl.
  destruct (select_cases named_name name table Hname)
    as [[-> Hnone]|(r & -> & Hr & Hrn)]; simpl.
  - set (row := {| named_id := next_id (named_id <$> table); named_name := name |}).
    assert (name ∉ named_name <$> table) as Hfresh.
    { intros (r0 & ? & ?)%list_elem_of_fmap. by eapply Hnone. }
    destruct (IH (table ++ [row])) as (rows & table' & -> & Hres & Huniq).
    { split; rewrite fmap_app; apply NoDup_app;
        (split_and!; [done| |apply NoDup_singleton]);
        intros x Hx ->%list_elem_of_singleton; [|done].
      by apply next_id_fresh in Hx. }
    simpl. eexists _, _. split; [done|]. split; [|done].
    destruct Hres as (rows' & new & -> & Hfks & Hnames & Hin & Hold & Hnd & Hnew).
    exists (row :: rows'), (row :: new). split_and!.
    + by rewrite <-app_assoc.
    + rewrite !fmap_cons. by f_equal.
    + rewrite fmap_cons. by f_equal.
    + constructor; [|done]. rewrite <-app_assoc. apply elem_of_app. right. by left.
    + constructor; [intros ?; by destruct Hfresh|].
      eapply Forall_impl; [exact Hold|]. simpl. intros r0 Hr0 Hr0n.
      assert (named_name r0 ∈ named_name <$> table ++ [row]) as H1.
      { rewrite fmap_app. apply elem_of_app. by left. }
      apply Hr0 in H1. apply elem_of_app in H1 as [?|H1]; [done|].
      apply list_elem_of_singleton in H1 as ->. by destruct Hfresh.
    + rewrite fmap_cons. apply NoDup_cons. split; [|done].
      intros [_ Hn]%Hnew. apply Hn. rewrite fmap_app. apply elem_of_app. right.
      by left.
    + intros n. rewrite fmap_cons, !elem_of_cons, Hnew, fmap_app, elem_of_app.
      simpl. rewrite list_elem_of_singleton. split.
      * intros [->|[Hn Hnot]]; [by split; [left|]|]. split; [by right|].
        intros Hin'. apply Hnot. by left.
      * intros [[->|Hn] Hnot]; [by left|].
        destruct (decide (n = name)) as [|Hne]; [by left|].
        right. split; [done|]. by intros [|].
  - destruct (IH table) as (rows & table' & -> & Hres & Huniq); [done|].
    simpl. eexists _, _. split; [done|]. split; [|done].
    destruct Hres as (rows' & new & -> & Hfks & Hnames & Hin & Hold & Hnd & Hnew).
    exists (r :: rows'), new. split_and!; try done.
    + rewrite !fmap_cons. by f_equal.
    + rewrite fmap_cons. by f_equal.
    + constructor; [|done]. apply elem_of_app. by left.
    + by constructor.
    + intros n. rewrite Hnew, elem_of_cons. split; [intros [? ?]; by split; [right|]|].
      intros [[->|?] Hn]; [|done]. destruct Hn. rewrite <-Hrn.
      by apply list_elem_of_fmap_2.
Qed.

Lemma select_same_identity movie_in (rows : list MovieModel) :
  filter (λ m, movie_name m = Some (create_name movie_in)
               ∧ movie_date m = Some (create_date movie_in)) rows
  = filter (λ m, (movie_name m, movie_date m)
                 = (Some (create_name movie_in), Some (create_date movie_in))) rows.
Proof. apply list_filter_iff. intros m. split; [by intros [-> ->]|by intros [= -> ->]]. Qed.

Lemma create_movie_session_conflict db movie_in m :
  unique_keys db → m ∈ movies db → same_identity movie_in m →
  create_movie_session db movie_in = Raise Conflict.
Proof.
  intros (_ & Hkey & _) Hm [Hn Hd]. unfold create_movie_session.
  rewrite select_same_identity.
  rewrite (select_one (λ m, (movie_name m, movie_date m)) _ (movies db) m);
    [done..|]. by rewrite Hn, Hd.
Qed.

Lemma create_movie_session_ok db movie_in :
  unique_keys db →
  (∀ m, m ∈ movies db → ¬ same_identity movie_in m) →
  ∃ movie db',
    create_movie_session db movie_in = Ok (movie, db')
    ∧ movies db' = movies db ++ [movie]
    ∧ movie_name movie = Some (create_name movie_in)
    ∧ movie_date movie = Some (create_date movie_in)
    ∧ movie_score movie = Some (create_score movie_in)
    ∧ movie_overview movie = Some (create_overview movie_in)
    ∧ movie_status movie = Some (create_status movie_in)
    ∧ movie_budget movie = Some (create_budget movie_in)
    ∧ movie_revenue movie = Some (create_revenue movie_in)
    ∧ country_resolved (create_country movie_in) (countries db) (countries db')
        (movie_country movie)
    ∧ names_resolved (create_genres movie_in) (genres db) (genres db')
        (movie_genres movie)
    ∧ names_resolved (create_actors movie_in) (actors db) (actors db')
        (movie_actors movie)
    ∧ names_resolved (create_languages movie_in) (languages db) (languages db')
        (movie_languages movie)
    ∧ unique_keys db'.
Proof.
  intros (Hid & Hkey & Hcid & Hcode & Hg & Ha & Hl) Hnone.
  unfold create_movie_session. rewrite select_same_identity.
  rewrite select_none; simpl.
  2: { intros m Hm [= Hn Hd]. by apply (Hnone m Hm). }
  destruct (resolve_country_spec (create_country movie_in) (countries db))
    as (c & countries' & -> & Hc & _ & Hcid' & Hcode'); [done..|]. simpl.
  destruct (resolve_names_spec (create_genres movie_in) (genres db))
    as (gs & genres' & -> & Hgs & Hg'); [done|]. simpl.
  destruct (resolve_names_spec (create_actors movie_in) (actors db))
    as (acs & actors' & -> & Hacs & Ha'); [done|]. simpl.
  destruct (resolve_names_spec (create_languages movie_in) (languages db))
    as (ls & languages' & -> & Hls & Hl'); [done|]. simpl.
  eexists _, _. split; [done|]. simpl. split_and!; try done.
  unfold unique_keys. simpl. split_and!; try done.
  - rewrite fmap_app. apply NoDup_app. split_and!; [done| |apply NoDup_singleton].
    intros x Hx ->%list_elem_of_singleton. by apply next_id_fresh in Hx.
  - rewrite fmap_app. apply NoDup_app. split_and!; [done| |apply NoDup_singleton].
    intros x Hx ->%list_elem_of_singleton.
    apply list_elem_of_fmap in Hx as (m & [= Hn Hd] & Hm). by apply (Hnone m Hm).
Qed.

Lemma load_country_resolved db movie code table :
  country_resolved code table (countries db) (movie_country movie) →
  is_Some (load_country db movie).
Proof.
  intros (c & Hc & _ & Hfk & _). unfold load_country.
  destruct (filter _ _) as [|c' l] eqn:Hfilter; [|by eexists].
  assert (c ∈ filter (λ c, country_id c = movie_country movie) (countries db)) as Hin
    by by apply list_elem_of_filter.
  rewrite Hfilter in Hin. by apply elem_of_nil in Hin.
Qed.

Lemma MovieCreateSchema_validate_ok today body movie_in :
  MovieCreateSchema_validate today body = Ok movie_in →
  movie_in = body
  ∧ ge_0_le_100 (create_score body) = true
  ∧ ge_0 (create_budget body) = true
  ∧ ge_0 (create_revenue body) = true.
Proof.
  unfold MovieCreateSchema_validate.
  destruct (validate_fields _ _) as [[]|] eqn:Hfields; simpl; [|done].
  intros [= <-]. split; [done|].
  apply validate_fields_ok in Hfields as [_ Hfields].
  apply Forall_cons in Hfields as [_ Hfields].
  apply Forall_cons in Hfields as [_ Hfields].
  apply Forall_cons in Hfields as [Hs Hfields].
  apply Forall_cons in Hfields as [Hb Hfields].
  apply Forall_cons in Hfields as [Hr _].
  unfold constraint in *.
  by destruct (ge_0_le_100 _), (ge_0 (create_budget _)), (ge_0 (create_revenue _)).
Qed.

(** C3. In a catalog with unique keys, for a payload that its schema accepts,
    the create operation fails with Conflict exactly when a movie with the
    name and the date of the payload exists, and then changes nothing; when
    every movie differs from the payload in name or in date, it succeeds: the
    response and a row of the new catalog bear the name and the date of the
    payload. *)
Theorem create_movie_conflict_iff today db movie_in :
  unique_keys db →
  MovieCreateSchema_validate today movie_in = Ok movie_in →
  (snd (create_movie db movie_in) = Raise Conflict
   ↔ ∃ m, m ∈ movies db ∧ movie_name m = Some (create_name movie_in)
          ∧ movie_date m = Some (create_date movie_in))
  ∧ (snd (create_movie db movie_in) = Raise Conflict →
     fst (create_movie db movie_in) = db)
  ∧ ((∀ m, m ∈ movies db →
        movie_name m ≠ Some (create_name movie_in)
        ∨ movie_date m ≠ Some (create_date movie_in)) →
     ∃ detail m,
       snd (create_movie db movie_in) = Ok detail
       ∧ detail_name detail = create_name movie_in
       ∧ detail_date detail = create_date movie_in
       ∧ movies (fst (create_movie db movie_in)) = movies db ++ [m]
       ∧ movie_id m = detail_id detail
       ∧ movie_name m = Some (create_name movie_in)
       ∧ movie_date m = Some (create_date movie_in)).
Proof.
  intros Hkeys (_ & Hs & Hb & Hr)%MovieCreateSchema_validate_ok.
  assert ((∀ m, m ∈ movies db → ¬ same_identity movie_in m) →
          ∃ detail m db',
            create_movie db movie_in = (db', Ok detail)
            ∧ detail_name detail = create_name movie_in
            ∧ detail_date detail = create_date movie_in
            ∧ movies db' = movies db ++ [m]
            ∧ movie_id m = detail_id detail
            ∧ movie_name m = Some (create_name movie_in)
            ∧ movie_date m = Some (create_date movie_in)) as Hok.
  { intros Hnone.
    destruct (create_movie_session_ok db movie_in Hkeys Hnone)
      as (movie & db' & Hsession & Hmovies & Hn & Hd & Hsc & Ho & Hst & Hbu
          & Hre & Hc & _).
    unfold create_movie. rewrite Hsession. simpl.
    unfold MovieDetailSchema_model_validate.
    destruct (load_country_resolved db' movie _ _ Hc) as [c ->].
    rewrite Hn, Hd, Hsc, Ho, Hst, Hbu, Hre, Hs, Hb, Hr. simpl.
    by eexists _, movie, db'. }
  split_and!.
  - split.
    + intros Hconflict.
      destruct (decide (Exists (same_identity movie_in) (movies db))) as [Hex|Hno].
      { apply Exists_exists in Hex as (m & ? & ? & ?). eauto. }
      rewrite <-Forall_Exists_neg, Forall_forall in Hno.
      destruct (Hok Hno) as (detail & m & db' & Heq & _).
      by rewrite Heq in Hconflict.
    + intros (m & Hm & Hn & Hd). unfold create_movie.
      by rewrite (create_movie_session_conflict db movie_in m).
  - unfold create_movie.
    destruct (create_movie_session db movie_in) as [[movie db']|]; simpl; [|done].
    unfold MovieDetailSchema_model_validate. by repeat case_match.
  - intros Hdiff.
    destruct Hok as (detail & m & db' & Heq & ? & ? & ? & ? & ? & ?).
    { intros m Hm [Hn Hd]. by destruct (Hdiff m Hm). }
    exists detail, m. by rewrite Heq.
Qed.

(** C4. In a catalog with unique keys, a create that meets no conflict
    resolves the country code and each genre, actor and language name of its
    payload to a row of the table: the row that bore the code or name when
    there was one, and otherwise one row added for it (with a null name for a
    country), linked by its key to the new movie; every table keeps its keys,
    codes and names unique, so a later create that refers to the same code or
    name finds that row and adds none. *)
Theorem create_movie_resolves_lookups db movie_in :
  unique_keys db →
  (∀ m, m ∈ movies db →
     ¬ (movie_name m = Some (create_name movie_in)
        ∧ movie_date m = Some (create_date movie_in))) →
  let db' := fst (create_movie db movie_in) in
  ∃ movie,
    movies db' = movies db ++ [movie]
    ∧ country_resolved (create_country movie_in) (countries db) (countries db')
        (movie_country movie)
    ∧ names_resolved (create_genres movie_in) (genres db) (genres db')
        (movie_genres movie)
    ∧ names_resolved (create_actors movie_in) (actors db) (actors db')
        (movie_actors movie)
    ∧ names_resolved (create_languages movie_in) (languages db) (languages db')
        (movie_languages movie)
    ∧ unique_keys db'.
Proof.
  intros Hkeys Hnone db'.
  destruct (create_movie_session_ok db movie_in Hkeys Hnone)
    as (movie & db1 & Hsession & Hmovies & _ & _ & _ & _ & _ & _ & _ & Hc & Hg
        & Ha & Hl & Hkeys').
  subst db'. unfold create_movie. rewrite Hsession. simpl.
  exists movie. done.
Qed.

(** ** Properties of the request schemas *)

Lemma max_length_255_false v :
  max_length_255 v = false ↔ (255 < String.length v)%nat.
Proof. unfold max_length_255. apply Nat.leb_gt. Qed.

Lemma ge_0_false v : ge_0 v = false ↔ (v < 0)%Q.
Proof.
  rewrite <-not_true_iff_false, ge_0_spec. split; [apply Qnot_le_lt|apply Qlt_not_le].
Qed.

Lemma ge_0_le_100_false v : ge_0_le_100 v = false ↔ (v < 0 ∨ 100 < v)%Q.
Proof.
  rewrite <-not_true_iff_false, ge_0_le_100_spec. split.
  - intros Hn. destruct (Qlt_le_dec v 0) as [|H0]; [by left|]. right.
    apply Qnot_le_lt. intros H100. by apply Hn.
  - intros [H|H] [H0 H100]; by eapply Qlt_not_le.
Qed.

Lemma fullmatch_A_Z_2_3_spec v : fullmatch_A_Z_2_3 v = true ↔ uppercase_code v.
Proof.
  unfold fullmatch_A_Z_2_3, uppercase_code.
  rewrite !andb_true_iff, !Nat.leb_le, forallb_forall, Forall_forall.
  setoid_rewrite <-list_elem_of_In. unfold in_A_Z.
  setoid_rewrite andb_true_iff. setoid_rewrite Nat.leb_le.
  split; [intros [[? ?] ?]|intros [? ?]]; (split; [lia|done]).
Qed.

Lemma fullmatch_A_Z_2_3_false v : fullmatch_A_Z_2_3 v = false ↔ ¬ uppercase_code v.
Proof. by rewrite <-not_true_iff_false, fullmatch_A_Z_2_3_spec. Qed.

(** The outcome of validating a create body, as one test. *)
Lemma MovieCreateSchema_validate_eq today body :
  MovieCreateSchema_validate today body =
    if max_length_255 (create_name body)
       && negb (create_date body >? today + 365)
       && ge_0_le_100 (create_score body)
       && ge_0 (create_budget body)
       && ge_0 (create_revenue body)
       && fullmatch_A_Z_2_3 (create_country body)
    then Ok body else Raise RequestValidationError.
Proof.
  unfold MovieCreateSchema_validate, MovieCreateSchema_date_not_too_far,
    country_alpha3, constraint.
  by destruct (max_length_255 _), (_ >? _), (ge_0_le_100 _),
    (ge_0 (create_budget _)), (ge_0 (create_revenue _)), (fullmatch_A_Z_2_3 _).
Qed.

Lemma create_violation_iff today body :
  create_violation today body ↔
    max_length_255 (create_name body)
    && negb (create_date body >? today + 365)
    && ge_0_le_100 (create_score body)
    && ge_0 (create_budget body)
    && ge_0 (create_revenue body)
    && fullmatch_A_Z_2_3 (create_country body) = false.
Proof.
  unfold create_violation.
  rewrite <-max_length_255_false, <-fullmatch_A_Z_2_3_false,
    <-ge_0_le_100_false, <-!ge_0_false, <-Z.gtb_lt.
  destruct (max_length_255 _), (_ >? _), (ge_0_le_100 _),
    (ge_0 (create_budget _)), (ge_0 (create_revenue _)), (fullmatch_A_Z_2_3 _);
    simpl; intuition congruence.
Qed.

Lemma optional_holds_false {A : Type} (holds : A → bool) field :
  optional_holds holds field = false
  ↔ ∃ v, field = Some (Some v) ∧ holds v = false.
Proof.
  destruct field as [[v|]|]; simpl.
  - split; [by exists v|by intros (? & [= <-] & ?)].
  - split; [done|by intros (? & ? & ?)].
  - split; [done|by intros (? & ? & ?)].
Qed.

Lemma country_holds_false field :
  country_holds field = false
  ↔ ∃ v, field = Some (Some (json_string v))
         ∧ fullmatch_A_Z_2_3 (upper v) = false.
Proof.
  destruct field as [[[v|]|]|]; simpl.
  - split; [by exists v|by intros (? & [= <-] & ?)].
  - split; [done|by intros (? & ? & ?)].
  - split; [done|by intros (? & ? & ?)].
  - split; [done|by intros (? & ? & ?)].
Qed.

Lemma date_absent_false (field : option (option Z)) :
  field ≠ Some None →
  date_absent field = false ↔ ∃ v, field = Some (Some v).
Proof.
  destruct field as [[v|]|]; simpl; intros Hnull.
  - split; [by exists v|done].
  - done.
  - split; [done|by intros (? & ?)].
Qed.

(** The outcome of validating an update body whose date is not a null and
    whose country is not a non-string, as one test. *)
Lemma MovieUpdateSchema_validate_eq today body :
  body_date body ≠ Some None →
  body_country body ≠ Some (Some json_non_string) →
  MovieUpdateSchema_validate today body =
    if country_holds (body_country body)
       && optional_holds max_length_255 (body_name body)
       && date_absent (body_date body)
       && optional_holds ge_0_le_100 (body_score body)
       && optional_holds ge_0 (body_budget body)
       && optional_holds ge_0 (body_revenue body)
    then Ok (fields_of body) else Raise RequestValidationError.
Proof.
  intros Hdate Hcountry.
  unfold MovieUpdateSchema_validate, validate_country, fields_of.
  destruct body as [n d s o st b r c]; simpl in *.
  destruct c as [[[c|]|]|]; simpl; [|done|..].
  1: destruct (fullmatch_A_Z_2_3 (upper c)); simpl; [|done].
  all: destruct n as [[n|]|], d as [[d|]|], s as [[s|]|], b as [[b|]|],
         r as [[r|]|]; simpl; try done;
       unfold constraint; simpl;
       repeat match goal with
         | |- context [max_length_255 ?x] => destruct (max_length_255 x)
         | |- context [ge_0_le_100 ?x] => destruct (ge_0_le_100 x)
         | |- context [ge_0 ?x] => destruct (ge_0 x)
         end; reflexivity.
Qed.

Lemma update_violation_iff body :
  body_date body ≠ Some None →
  update_violation body ↔
    country_holds (body_country body)
    && optional_holds max_length_255 (body_name body)
    && date_absent (body_date body)
    && optional_holds ge_0_le_100 (body_score body)
    && optional_holds ge_0 (body_budget body)
    && optional_holds ge_0 (body_revenue body) = false.
Proof.
  intros Hdate. unfold update_violation.
  setoid_rewrite <-max_length_255_false.
  setoid_rewrite <-fullmatch_A_Z_2_3_false.
  setoid_rewrite <-ge_0_le_100_false.
  setoid_rewrite <-ge_0_false.
  rewrite !andb_false_iff, !optional_holds_false, country_holds_false,
    (date_absent_false _ Hdate).
  clear Hdate. tauto.
Qed.

(** A create body is rejected with a validation error exactly when one of its
    field constraints fails: a date later than today + 365 days, a country
    code that is not two or three uppercase letters, a score outside
    [0, 100], a negative budget or revenue, or a name longer than 255
    characters; otherwise it is accepted as it is; a rejected body reaches no
    handler, so the store is unchanged. *)
Lemma MovieCreateSchema_rejects_iff today body :
  (MovieCreateSchema_validate today body = Raise RequestValidationError
   ↔ create_violation today body)
  ∧ (¬ create_violation today body →
     MovieCreateSchema_validate today body = Ok body)
  ∧ (create_violation today body →
     ∀ db, post_movies today db body = (db, Raise RequestValidationError)).
Proof.
  unfold post_movies.
  rewrite MovieCreateSchema_validate_eq, create_violation_iff.
  destruct (_ && _); by split_and!.
Qed.

(** An update body (whose date is not a null and whose country is not a
    non-string) is rejected with a validation error exactly when it supplies
    a date, whatever the date, or a country string that is malformed once
    uppercased, or a score, budget, revenue or name out of its bounds;
    otherwise it is accepted with the fields it supplies; a rejected body
    reaches no handler. *)
Lemma MovieUpdateSchema_rejects_iff today body :
  body_date body ≠ Some None →
  body_country body ≠ Some (Some json_non_string) →
  (MovieUpdateSchema_validate today body = Raise RequestValidationError
   ↔ update_violation body)
  ∧ (¬ update_violation body →
     MovieUpdateSchema_validate today body = Ok (fields_of body))
  ∧ (update_violation body →
     ∀ db id,
       patch_movies today db id body = (db, Raise RequestValidationError)).
Proof.
  intros Hdate Hcountry. unfold patch_movies.
  rewrite MovieUpdateSchema_validate_eq, update_violation_iff by done.
  destruct (_ && _); by split_and!.
Qed.

(** The update schema accepts no date: a body that supplies one, within the
    bound of the create schema or not, is rejected with a validation
    error. *)
Lemma MovieUpdateSchema_rejects_date today body v :
  body_date body = Some (Some v) →
  body_country body ≠ Some (Some json_non_string) →
  MovieUpdateSchema_validate today body = Raise RequestValidationError.
Proof.
  intros Hdate Hcountry.
  apply MovieUpdateSchema_rejects_iff; [by rewrite Hdate|done|].
  left. by exists v.
Qed.

(** The boundary of the date rule. *)
Lemma date_today_plus_365_accepted today v :
  v = today + 365 → MovieCreateSchema_date_not_too_far today v = Ok v.
Proof.
  intros ->. unfold MovieCreateSchema_date_not_too_far.
  by destruct (Z.gtb_spec (today + 365) (today + 365)); [lia|].
Qed.

Lemma date_today_plus_366_rejected today v :
  v = today + 366 → MovieCreateSchema_date_not_too_far today v = Raise ValueError.
Proof.
  intros ->. unfold MovieCreateSchema_date_not_too_far.
  by destruct (Z.gtb_spec (today + 366) (today + 365)); [|lia].
Qed.

(** An update body whose date is a null is not accepted: the model validator
    raises on its country, or the date validator raises [TypeError]. *)
Lemma MovieUpdateSchema_validate_date_null today body :
  body_date body = Some None →
  MovieUpdateSchema_validate today body
  = match body_country body with
    | Some (Some json_non_string) => Raise AttributeError
    | country =>
        if country_holds country then Raise TypeError
        else Raise RequestValidationError
    end.
Proof.
  intros Hdate.
  unfold MovieUpdateSchema_validate, validate_country.
  destruct body as [n d s o st b r c]; simpl in *. subst d.
  destruct c as [[[c|]|]|]; simpl; [|done|..].
  1: destruct (fullmatch_A_Z_2_3 (upper c)); simpl; [|done].
  all: destruct n as [[n|]|]; simpl; try done;
       unfold constraint; destruct (max_length_255 n); reflexivity.
Qed.

(** The handler leaves the key and the country of every movie, and the
    table of countries, as they were. *)
Lemma update_movie_country db id movie_data :
  NoDup (movie_id <$> movies db) →
  countries (fst (update_movie db id movie_data)) = countries db
  ∧ (λ m, (movie_id m, movie_country m)) <$> movies (fst (update_movie db id movie_data))
    = (λ m, (movie_id m, movie_country m)) <$> movies db.
Proof.
  intros Hnd. unfold update_movie.
  destruct (select_cases movie_id id (movies db) Hnd)
    as [[-> Hnone]|(movie & -> & Hmovie & Hid)]; simpl; [done|].
  destruct (commit _ _) as [[]|e]; simpl; [|done].
  split; [done|]. rewrite foldl_setattr, <-list_fmap_compose.
  apply list_fmap_ext. intros _ m Hm%list_elem_of_lookup_2. simpl.
  case_decide as Heq; [|done]. simpl.
  by rewrite (key_inj movie_id (movies db) m movie).
Qed.

(** C9, as the code has it.  When the key [country] of an update body holds a
    string, the model validator uppercases the value, and the body is
    rejected with a validation error when the uppercased value is not two or
    three uppercase letters (a value that is passes this validator); when the
    key holds a null, or is absent, the validator returns the body as it is,
    unchecked.  Whatever the body, the request changes the country of no
    movie and no row of the country table: the key is not a field of the
    schema, so the instance that reaches the handler does not have it. *)
Theorem update_country_checked_not_applied today body :
  (∀ v, body_country body = Some (Some (json_string v)) →
     (∀ values, validate_country body = Ok values →
        body_country values = Some (Some (json_string (upper v))))
     ∧ (¬ uppercase_code (upper v) →
        validate_country body = Raise ValueError
        ∧ MovieUpdateSchema_validate today body = Raise RequestValidationError
        ∧ ∀ db id,
            patch_movies today db id body = (db, Raise RequestValidationError))
     ∧ (uppercase_code (upper v) → ∃ values, validate_country body = Ok values))
  ∧ (body_country body = Some None ∨ body_country body = None →
     validate_country body = Ok body)
  ∧ (∀ movie_data,
       MovieUpdateSchema_validate today body = Ok movie_data →
       movie_data = fields_of body)
  ∧ (∀ db id,
       NoDup (movie_id <$> movies db) →
       let db' := fst (patch_movies today db id body) in
       countries db' = countries db
       ∧ (λ m, (movie_id m, movie_country m)) <$> movies db'
         = (λ m, (movie_id m, movie_country m)) <$> movies db).
Proof.
  split_and!.
  - intros v Hc.
    assert (validate_country body =
              if fullmatch_A_Z_2_3 (upper v)
              then Ok {| body_name := body_name body;
                         body_date := body_date body;
                         body_score := body_score body;
                         body_overview := body_overview body;
                         body_status := body_status body;
                         body_budget := body_budget body;
                         body_revenue := body_revenue body;
                         body_country := Some (Some (json_string (upper v))) |}
              else Raise ValueError) as Hvc.
    { unfold validate_country. rewrite Hc. simpl.
      by destruct (fullmatch_A_Z_2_3 (upper v)). }
    split_and!.
    + intros values. rewrite Hvc. destruct (fullmatch_A_Z_2_3 _); [|done].
      by intros [= <-].
    + intros Hbad%fullmatch_A_Z_2_3_false.
      unfold patch_movies, MovieUpdateSchema_validate.
      rewrite Hvc, Hbad. done.
    + intros Hgood%fullmatch_A_Z_2_3_spec. rewrite Hvc, Hgood. by eexists.
  - unfold validate_country. by intros [->| ->].
  - intros movie_data. unfold MovieUpdateSchema_validate, validate_country.
    destruct (mjoin (body_country body)) as [[c|]|]; [|done|].
    + destruct (fullmatch_A_Z_2_3 (upper c)); cbn [negb]; [|done].
      destruct (validate_fields _ _) as [[]|]; simpl; [|done]. by intros [= <-].
    + destruct (validate_fields _ _) as [[]|]; simpl; [|done]. by intros [= <-].
  - intros db id Hnd. unfold patch_movies.
    destruct (MovieUpdateSchema_validate today body); [|done].
    by apply update_movie_country.
Qed.

(** ** Further properties of the handlers *)

(** The update payload that sets no field: the body [{}]. *)
Definition empty_update : MovieUpdateSchema :=
  {| update_name := None; update_date := None; update_score := None;
     update_overview := None; update_status := None; update_budget := None;
     update_revenue := None |}.

(** The catalog holds a movie with the key [id]. *)
Definition has_movie (db : DB) (id : Z) : Prop :=
  ∃ m, m ∈ movies db ∧ movie_id m = id.

Lemma MovieDetailSchema_model_validate_raises db movie e :
  MovieDetailSchema_model_validate db movie = Raise e → e = ValidationError.
Proof.
  unfold MovieDetailSchema_model_validate.
  repeat case_match; congruence.
Qed.

(** The response schema reads the lookup tables only. *)
Lemma MovieDetailSchema_model_validate_tables db db' movie :
  countries db' = countries db → genres db' = genres db →
  actors db' = actors db → languages db' = languages db →
  MovieDetailSchema_model_validate db' movie
  = MovieDetailSchema_model_validate db movie.
Proof.
  intros Hc Hg Ha Hl.
  unfold MovieDetailSchema_model_validate, load_country.
  by rewrite Hc, Hg, Ha, Hl.
Qed.

Lemma load_named_elem table keys (r : NamedModel) :
  r ∈ load_named table keys ↔ r ∈ table ∧ named_id r ∈ keys.
Proof.
  unfold load_named. rewrite list_elem_of_bind. split.
  - intros (k & [Hk Hr]%list_elem_of_filter & Hin). split; [done|]. by rewrite Hk.
  - intros [Hr Hk]. exists (named_id r). split; [|done].
    by apply list_elem_of_filter.
Qed.

(** What the query by key returns, whatever the table holds. *)
Lemma select_singleton (id : Z) (rows : list MovieModel) (movie : MovieModel) :
  filter (λ m, movie_id m = id) rows = [movie] →
  movie ∈ rows ∧ movie_id movie = id
  ∧ ∀ m, m ∈ rows → movie_id m = id → m = movie.
Proof.
  intros Hsel.
  assert (∀ m, m ∈ filter (λ m, movie_id m = id) rows ↔ movie_id m = id ∧ m ∈ rows)
    as Hin by (intros m; exact (list_elem_of_filter _ _ _)).
  rewrite Hsel in Hin. setoid_rewrite list_elem_of_singleton in Hin.
  destruct (Hin movie) as [[? ?] _]; [done|]. split_and!; [done..|].
  intros m Hm Hid. by apply Hin.
Qed.

(** X1. Where the movie ids are unique, the detail fetch fails with NotFound
    exactly when no movie has the id.  A detail that it returns shows a movie
    of the catalog with that id: its scalar values, the country row of its
    foreign key, and for genres, actors and languages rows of the lookup
    tables whose keys the movie links. *)
Theorem get_movie_not_found_iff db id :
  NoDup (movie_id <$> movies db) →
  (get_movie db id = Raise NotFound ↔ ¬ has_movie db id)
  ∧ (∀ d, get_movie db id = Ok d →
       ∃ m c,
         m ∈ movies db ∧ movie_id m = id ∧ detail_id d = id
         ∧ movie_name m = Some (detail_name d)
         ∧ movie_date m = Some (detail_date d)
         ∧ movie_score m = Some (detail_score d)
         ∧ movie_overview m = Some (detail_overview d)
         ∧ movie_status m = Some (detail_status d)
         ∧ movie_budget m = Some (detail_budget d)
         ∧ movie_revenue m = Some (detail_revenue d)
         ∧ c ∈ countries db ∧ country_id c = movie_country m
         ∧ detail_country d = CountrySchema_of c
         ∧ (∀ g, g ∈ detail_genres d →
              ∃ r, r ∈ genres db ∧ named_id r ∈ movie_genres m
                   ∧ g = NamedSchema_of r)
         ∧ (∀ a, a ∈ detail_actors d →
              ∃ r, r ∈ actors db ∧ named_id r ∈ movie_actors m
                   ∧ a = NamedSchema_of r)
         ∧ (∀ l, l ∈ detail_languages d →
              ∃ r, r ∈ languages db ∧ named_id r ∈ movie_languages m
                   ∧ l = NamedSchema_of r)).
Proof.
  intros Hnd. unfold get_movie, has_movie.
  destruct (select_cases movie_id id (movies db) Hnd)
    as [[-> Hnone]|(m & -> & Hm & Hid)]; simpl.
  - split; [|done]. split; [|done]. intros _ (m & Hm & Hid). by eapply Hnone.
  - split.
    { split; [|intros []; eauto].
      by intros ?%MovieDetailSchema_model_validate_raises. }
    intros d. unfold MovieDetailSchema_model_validate, load_country.
    destruct (movie_name m) eqn:?; [|done].
    destruct (movie_date m) eqn:?; [|done].
    destruct (movie_score m) eqn:?; [|done].
    destruct (movie_overview m) eqn:?; [|done].
    destruct (movie_status m) eqn:?; [|done].
    destruct (movie_budget m) eqn:?; [|done].
    destruct (movie_revenue m) eqn:?; [|done].
    destruct (head _) as [c|] eqn:Hc; [|done].
    destruct (_ && _); [|done]. intros [= <-]. simpl.
    apply head_Some_elem_of, list_elem_of_filter in Hc as [Hfk Hc].
    exists m, c. split_and!; try done.
    all: intros x (r & -> & [? ?]%load_named_elem)%list_elem_of_fmap; eauto.
Qed.

(** X2. Where the movie ids are unique, the update operation fails with
    NotFound exactly when no movie has the id, and then leaves the store as
    it was. *)
Theorem update_movie_not_found_iff db id movie_data :
  NoDup (movie_id <$> movies db) →
  (snd (update_movie db id movie_data) = Raise NotFound ↔ ¬ has_movie db id)
  ∧ (snd (update_movie db id movie_data) = Raise NotFound →
     fst (update_movie db id movie_data) = db).
Proof.
  intros Hnd. unfold update_movie, has_movie.
  destruct (select_cases movie_id id (movies db) Hnd)
    as [[-> Hnone]|(m & -> & Hm & Hid)]; simpl.
  - split; [|done]. split; [|done]. intros _ (m & Hm & Hid). by eapply Hnone.
  - assert (commit (movies db)
              ((λ m0, if decide (movie_id m0 = movie_id m)
                      then foldl setattr m (model_dump_exclude_unset movie_data)
                      else m0) <$> movies db) ≠ Raise NotFound) as Hcommit.
    { unfold commit. by case_decide. }
    destruct (commit _ _) as [[]|e]; simpl.
    + split; [|done]. split; [done|]. intros []. eauto.
    + split; [|done]. split; [congruence|]. intros []. eauto.
Qed.

(** X3. Where the movie ids are unique, deleting the same id a second time
    fails with NotFound and changes nothing more. *)
Theorem delete_movie_twice db id :
  NoDup (movie_id <$> movies db) →
  let db1 := fst (delete_movie db id) in
  delete_movie db1 id = (db1, Raise NotFound).
Proof.
  intros Hnd db1. subst db1.
  destruct (select_cases movie_id id (movies db) Hnd)
    as [[Hsel Hnone]|(m & Hsel & Hm & Hid)].
  - assert (delete_movie db id = (db, Raise NotFound)) as Hdel.
    { unfold delete_movie. by rewrite Hsel. }
    by rewrite Hdel.
  - unfold delete_movie at 2 3. rewrite Hsel. simpl.
    unfold delete_movie. simpl. rewrite select_none; [done|].
    intros x Hx. apply list_elem_of_filter in Hx as [Hx _]. congruence.
Qed.

(** X4. Deleting or updating the movie [id] leaves the detail fetch of every
    other id as it was. *)
Theorem delete_update_other_ids db id id' movie_data :
  id' ≠ id →
  get_movie (fst (delete_movie db id)) id' = get_movie db id'
  ∧ get_movie (fst (update_movie db id movie_data)) id' = get_movie db id'.
Proof.
  intros Hne. split.
  - unfold delete_movie.
    destruct (filter (λ m, movie_id m = id) (movies db)) as [|movie [|? ?]] eqn:Hsel;
      simpl; [done| |done].
    apply select_singleton in Hsel as (_ & Hid & _).
    unfold get_movie. simpl.
    rewrite list_filter_filter_l by (intros m; congruence).
    destruct (scalar_one_or_none _) as [[m|]|]; [|done..]. simpl.
    by apply MovieDetailSchema_model_validate_tables.
  - unfold update_movie.
    destruct (filter (λ m, movie_id m = id) (movies db)) as [|movie [|? ?]] eqn:Hsel;
      simpl; [done| |done].
    apply select_singleton in Hsel as (_ & Hid & _).
    destruct (commit _ _) as [[]|e]; simpl; [|done].
    unfold get_movie. simpl.
    assert (filter (λ m, movie_id m = id')
              ((λ m, if decide (movie_id m = movie_id movie)
                     then foldl setattr movie (model_dump_exclude_unset movie_data)
                     else m) <$> movies db)
            = filter (λ m, movie_id m = id') (movies db)) as ->.
    { rewrite foldl_setattr. induction (movies db) as [|m rows IH]; [done|].
      rewrite fmap_cons. case_decide as Hm.
      - rewrite !filter_cons_False by (simpl; congruence). done.
      - destruct (decide (movie_id m = id')).
        + rewrite !filter_cons_True by done. by f_equal.
        + by rewrite !filter_cons_False by done. }
    destruct (scalar_one_or_none _) as [[m|]|]; [|done..]. simpl.
    by apply MovieDetailSchema_model_validate_tables.
Qed.

Lemma foldl_setattr_twice movie movie_data :
  foldl setattr (foldl setattr movie (model_dump_exclude_unset movie_data))
    (model_dump_exclude_unset movie_data)
  = foldl setattr movie (model_dump_exclude_unset movie_data).
Proof.
  rewrite !foldl_setattr. simpl.
  by destruct movie_data as [[] [] [] [] [] [] []].
Qed.

Lemma update_movie_empty db id :
  fst (update_movie db id empty_update) = db.
Proof.
  unfold update_movie.
  destruct (filter (λ m, movie_id m = id) (movies db)) as [|movie [|? ?]] eqn:Hsel;
    simpl; [done| |done].
  destruct (select_singleton _ _ _ Hsel) as (Hin & Hid & Huniq).
  assert ((λ m, if decide (movie_id m = movie_id movie) then movie else m)
            <$> movies db = movies db) as ->.
  { rewrite <-(list_fmap_id (movies db)) at 2. apply list_fmap_ext.
    intros _ m Hm%list_elem_of_lookup_2. simpl.
    case_decide as Heq; [|done]. symmetry. apply Huniq; congruence. }
  destruct (commit _ _) as [[]|e]; simpl; [|done].
  by destruct db.
Qed.

(** A commit that changes nothing succeeds. *)
Lemma commit_unchanged (rows : list MovieModel) : commit rows rows = Ok ().
Proof. unfold commit. case_decide as H; [|done]. by destruct H. Qed.

(** [update_movie] when the query finds the one row [movie]. *)
Lemma update_movie_found db id movie movie_data :
  filter (λ m, movie_id m = id) (movies db) = [movie] →
  update_movie db id movie_data =
    let movies' :=
      (λ m, if decide (movie_id m = id)
            then foldl setattr movie (model_dump_exclude_unset movie_data)
            else m) <$> movies db in
    match commit (movies db) movies' with
    | Raise e => (db, Raise e)
    | Ok _ =>
        ({| movies := movies';
            countries := countries db;
            genres := genres db;
            actors := actors db;
            languages := languages db |}, Ok updated_message)
    end.
Proof.
  intros Hsel. unfold update_movie. rewrite Hsel. simpl.
  by destruct (select_singleton _ _ _ Hsel) as (_ & -> & _).
Qed.

(** X5. Sending the same update twice leaves the store as sending it once
    does; the update that sets no field, the body [{}], leaves the store as
    it was. *)
Theorem update_movie_idempotent db id movie_data :
  let db1 := fst (update_movie db id movie_data) in
  fst (update_movie db1 id movie_data) = db1
  ∧ fst (update_movie db id empty_update) = db.
Proof.
  intros db1. subst db1. split; [|apply update_movie_empty].
  destruct (filter (λ m, movie_id m = id) (movies db)) as [|movie [|? ?]] eqn:Hsel.
  - assert (update_movie db id movie_data = (db, Raise NotFound)) as Hupd.
    { unfold update_movie. by rewrite Hsel. }
    rewrite Hupd. simpl. by rewrite Hupd.
  - pose proof (update_movie_found db id movie movie_data Hsel) as Hupd.
    pose proof (foldl_setattr_twice movie movie_data) as Htwice.
    set (movie' := foldl setattr movie (model_dump_exclude_unset movie_data)) in *.
    assert (movie_id movie' = id) as Hid'.
    { unfold movie'. rewrite foldl_setattr. simpl.
      by destruct (select_singleton _ _ _ Hsel) as (_ & -> & _). }
    simpl in Hupd.
    destruct (commit _ _) as [[]|e] eqn:Hcommit; rewrite Hupd; simpl.
    + rewrite (update_movie_found _ id movie' movie_data); simpl.
      2: { by rewrite select_replaced, Hsel. }
      rewrite Htwice.
      assert ((λ m, if decide (movie_id m = id) then movie' else m)
                <$> ((λ m, if decide (movie_id m = id) then movie' else m)
                       <$> movies db)
              = (λ m, if decide (movie_id m = id) then movie' else m)
                  <$> movies db) as ->.
      { rewrite <-list_fmap_compose. apply list_fmap_ext. intros _ m _. simpl.
        repeat case_decide; congruence. }
      by rewrite commit_unchanged.
    + by rewrite Hupd.
  - assert (update_movie db id movie_data = (db, Raise MultipleResultsFound))
      as Hupd.
    { unfold update_movie. by rewrite Hsel. }
    rewrite Hupd. simpl. by rewrite Hupd.
Qed.

(** X14. A body whose only key is [country], with a string that uppercases to
    two or three uppercase letters, is accepted; on an existing movie (ids
    unique) the request answers with the confirmation and leaves the store
    exactly as it was. *)
Theorem patch_country_only today db id body v :
  body_country body = Some (Some (json_string v)) →
  uppercase_code (upper v) →
  fields_of body = empty_update →
  NoDup (movie_id <$> movies db) →
  has_movie db id →
  patch_movies today db id body = (db, Ok updated_message).
Proof.
  intros Hc Hv Hfields Hnd (m & Hm & Hid). unfold patch_movies.
  assert (body_date body = None) as Hdate.
  { change (update_date (fields_of body) = None). by rewrite Hfields. }
  rewrite MovieUpdateSchema_validate_eq by by rewrite ?Hdate, ?Hc.
  assert (body_name body = None ∧ body_score body = None
          ∧ body_budget body = None ∧ body_revenue body = None)
    as (-> & -> & -> & ->).
  { split_and!;
      [change (update_name (fields_of body) = None)
      |change (update_score (fields_of body) = None)
      |change (update_budget (fields_of body) = None)
      |change (update_revenue (fields_of body) = None)];
      by rewrite Hfields. }
  rewrite Hc, Hdate. simpl.
  apply fullmatch_A_Z_2_3_spec in Hv as ->. simpl. rewrite Hfields.
  rewrite (surjective_pairing (update_movie db id empty_update)).
  rewrite update_movie_empty. f_equal.
  rewrite (update_movie_found db id m) by by apply select_one.
  simpl.
  assert ((λ m0, if decide (movie_id m0 = id) then m else m0) <$> movies db
          = movies db) as ->.
  { rewrite <-(list_fmap_id (movies db)) at 2. apply list_fmap_ext.
    intros _ m0 Hm0%list_elem_of_lookup_2. simpl.
    case_decide as Heq; [|done].
    apply (key_inj movie_id (movies db)); congruence. }
  by rewrite commit_unchanged.
Qed.

Lemma load_named_resolved names table table' fks :
  names_resolved names table table' fks →
  unique_named table' →
  ∀ n, n ∈ named_name <$> load_named table' fks ↔ n ∈ names.
Proof.
  intros (rows & new & _ & -> & <- & Hin & _) [Hid _] n.
  rewrite Forall_forall in Hin.
  rewrite !list_elem_of_fmap. setoid_rewrite load_named_elem. split.
  - intros (r & -> & Hr & (r' & Hk & Hr')%list_elem_of_fmap).
    exists r. split; [done|].
    by rewrite (key_inj named_id table' r r') by auto.
  - intros (r & -> & Hr). exists r. split; [done|]. split; [auto|].
    by apply list_elem_of_fmap_2.
Qed.

Lemma load_country_resolved_code db movie code table c :
  NoDup (country_id <$> countries db) →
  country_resolved code table (countries db) (movie_country movie) →
  load_country db movie = Some c →
  country_code c = code.
Proof.
  intros Hnd (c0 & Hc0 & Hcode & Hfk & _) Hc. unfold load_country in Hc.
  apply head_Some_elem_of, list_elem_of_filter in Hc as [Hid Hc].
  by rewrite (key_inj country_id (countries db) c c0) by congruence.
Qed.

Lemma create_movie_session_cases db movie_in :
  unique_keys db →
  create_movie_session db movie_in = Raise Conflict
  ∨ ∀ m, m ∈ movies db → ¬ same_identity movie_in m.
Proof.
  intros Hkeys.
  destruct (decide (Exists (same_identity movie_in) (movies db))) as [Hex|Hno].
  - left. apply Exists_exists in Hex as (m & Hm & Hsame).
    by apply (create_movie_session_conflict db movie_in m).
  - right. by rewrite <-Forall_Exists_neg, Forall_forall in Hno.
Qed.

(** X6. In a catalog with unique keys, the detail that a create returns
    carries the values of the payload: its scalar fields, the country with
    the code of the payload, and genres, actors and languages that bear
    exactly the names of the payload. *)
Theorem create_movie_response db movie_in detail :
  unique_keys db →
  snd (create_movie db movie_in) = Ok detail →
  detail_name detail = create_name movie_in
  ∧ detail_date detail = create_date movie_in
  ∧ detail_score detail = create_score movie_in
  ∧ detail_overview detail = create_overview movie_in
  ∧ detail_status detail = create_status movie_in
  ∧ detail_budget detail = create_budget movie_in
  ∧ detail_revenue detail = create_revenue movie_in
  ∧ cs_code (detail_country detail) = create_country movie_in
  ∧ (∀ n, n ∈ ns_name <$> detail_genres detail ↔ n ∈ create_genres movie_in)
  ∧ (∀ n, n ∈ ns_name <$> detail_actors detail ↔ n ∈ create_actors movie_in)
  ∧ (∀ n, n ∈ ns_name <$> detail_languages detail
          ↔ n ∈ create_languages movie_in).
Proof.
  intros Hkeys. unfold create_movie.
  destruct (create_movie_session_cases db movie_in Hkeys) as [->|Hnone]; [done|].
  destruct (create_movie_session_ok db movie_in Hkeys Hnone)
    as (movie & db' & -> & _ & Hn & Hd & Hsc & Ho & Hst & Hbu & Hre & Hc & Hg
        & Ha & Hl & Hkeys').
  destruct Hkeys' as (_ & _ & Hcid & _ & Hg' & Ha' & Hl').
  simpl. unfold MovieDetailSchema_model_validate.
  rewrite Hn, Hd, Hsc, Ho, Hst, Hbu, Hre.
  destruct (load_country db' movie) as [c|] eqn:Hload; [|done].
  destruct (_ && _); [|done]. intros [= <-]. simpl.
  split_and!; try done.
  - by eapply load_country_resolved_code.
  - intros n. rewrite <-list_fmap_compose. by eapply load_named_resolved.
  - intros n. rewrite <-list_fmap_compose. by eapply load_named_resolved.
  - intros n. rewrite <-list_fmap_compose. by eapply load_named_resolved.
Qed.

(** Two details that agree but for the order of their genres, actors and
    languages. *)
Definition same_detail (d d' : MovieDetailSchema) : Prop :=
  detail_id d' = detail_id d
  ∧ detail_name d' = detail_name d
  ∧ detail_date d' = detail_date d
  ∧ detail_score d' = detail_score d
  ∧ detail_overview d' = detail_overview d
  ∧ detail_status d' = detail_status d
  ∧ detail_budget d' = detail_budget d
  ∧ detail_revenue d' = detail_revenue d
  ∧ detail_country d' = detail_country d
  ∧ detail_genres d' ≡ₚ detail_genres d
  ∧ detail_actors d' ≡ₚ detail_actors d
  ∧ detail_languages d' ≡ₚ detail_languages d.

(** X7. In a catalog with unique keys, for a payload that its schema accepts
    and that differs from every movie in name or in date, the create succeeds
    and a detail fetch of the id it returns succeeds with the same detail,
    but possibly for the order of the related rows. *)
Theorem create_movie_then_get today db movie_in :
  unique_keys db →
  MovieCreateSchema_validate today movie_in = Ok movie_in →
  (∀ m, m ∈ movies db →
     movie_name m ≠ Some (create_name movie_in)
     ∨ movie_date m ≠ Some (create_date movie_in)) →
  ∃ detail detail',
    snd (create_movie db movie_in) = Ok detail
    ∧ get_movie (fst (create_movie db movie_in)) (detail_id detail) = Ok detail'
    ∧ same_detail detail detail'.
Proof.
  intros Hkeys (_ & Hs & Hb & Hr)%MovieCreateSchema_validate_ok Hdiff.
  destruct (create_movie_session_ok db movie_in Hkeys)
    as (movie & db' & Hsession & Hmovies & Hn & Hd & Hsc & Ho & Hst & Hbu
        & Hre & Hc & _ & _ & _ & Hid' & _).
  { intros m Hm [? ?]. by destruct (Hdiff m Hm). }
  unfold create_movie. rewrite Hsession. simpl.
  assert (∃ detail, MovieDetailSchema_model_validate db' movie = Ok detail
                    ∧ detail_id detail = movie_id movie) as (detail & Hdetail & Hid).
  { unfold MovieDetailSchema_model_validate.
    destruct (load_country_resolved db' movie _ _ Hc) as [c ->].
    rewrite Hn, Hd, Hsc, Ho, Hst, Hbu, Hre, Hs, Hb, Hr. simpl. by eexists. }
  exists detail, detail. split; [done|]. split; [|by repeat split].
  unfold get_movie.
  rewrite (select_one movie_id _ (movies db') movie); [by simpl|done| |done].
  rewrite Hmovies. apply elem_of_app. right. by left.
Qed.

(** X8. In a catalog with unique keys, after a create that met no conflict,
    a create with the same name and date fails with Conflict and leaves the
    store as the first create left it, whatever else its payload holds. *)
Theorem create_movie_twice db movie_in movie_in' :
  unique_keys db →
  (∀ m, m ∈ movies db →
     movie_name m ≠ Some (create_name movie_in)
     ∨ movie_date m ≠ Some (create_date movie_in)) →
  create_name movie_in' = create_name movie_in →
  create_date movie_in' = create_date movie_in →
  let db1 := fst (create_movie db movie_in) in
  create_movie db1 movie_in' = (db1, Raise Conflict).
Proof.
  intros Hkeys Hdiff Hname Hdate db1. subst db1.
  destruct (create_movie_session_ok db movie_in Hkeys)
    as (movie & db' & Hsession & Hmovies & Hn & Hd & _ & _ & _ & _ & _ & _ & _
        & _ & _ & Hkeys').
  { intros m Hm [? ?]. by destruct (Hdiff m Hm). }
  unfold create_movie at 2 3. rewrite Hsession. simpl.
  unfold create_movie.
  rewrite (create_movie_session_conflict db' movie_in' movie); [done|done| |].
  - rewrite Hmovies. apply elem_of_app. right. by left.
  - split; congruence.
Qed.

(** X9. An update body that supplies the date as a null is never accepted:
    it is rejected with a validation error when its country key holds a
    string that, uppercased, is not two or three uppercase letters, and the
    date validator raises [TypeError] otherwise (before that, a country that
    is not a string raises [AttributeError]); either way the store is
    unchanged. *)
Theorem update_date_null_not_accepted today body :
  body_date body = Some None →
  ((∃ v, body_country body = Some (Some (json_string v))
         ∧ ¬ uppercase_code (upper v)) →
   MovieUpdateSchema_validate today body = Raise RequestValidationError)
  ∧ ((∀ c, body_country body = Some (Some c) →
           ∃ v, c = json_string v ∧ uppercase_code (upper v)) →
     MovieUpdateSchema_validate today body = Raise TypeError)
  ∧ (body_country body = Some (Some json_non_string) →
     MovieUpdateSchema_validate today body = Raise AttributeError)
  ∧ (∀ movie_data, MovieUpdateSchema_validate today body ≠ Ok movie_data)
  ∧ (∀ db id, fst (patch_movies today db id body) = db).
Proof.
  intros Hdate. unfold patch_movies.
  rewrite (MovieUpdateSchema_validate_date_null today body Hdate).
  destruct (body_country body) as [[[v|]|]|] eqn:Hc; simpl.
  - destruct (fullmatch_A_Z_2_3 (upper v)) eqn:Hv.
    + split_and!; try done.
      intros (v' & [= <-] & Hbad). by apply fullmatch_A_Z_2_3_spec in Hv.
    + split_and!; try done.
      intros Hgood. destruct (Hgood _ eq_refl) as (v' & [= <-] & Hv').
      apply fullmatch_A_Z_2_3_false in Hv. by destruct Hv.
  - split_and!; try done.
    + by intros (v & [=] & _).
    + intros Hgood. by destruct (Hgood _ eq_refl) as (v' & [=] & _).
  - split_and!; try done. by intros (v & [=] & _).
  - split_and!; try done. by intros (v & [=] & _).
Qed.

(** ** The commits of create and delete *)

Lemma scalar_one_or_none_None {A : Type} (rows : list A) :
  scalar_one_or_none rows = Ok None → rows = [].
Proof. by destruct rows as [|? [|? ?]]. Qed.

Lemma delete_movie_keeps_constraints db id :
  movie_constraints (movies db) →
  movie_constraints (movies (fst (delete_movie db id))).
Proof.
  intros [Hrows Hkey]. unfold delete_movie.
  destruct (scalar_one_or_none _) as [[movie|]|]; simpl; [|done..].
  split.
  - apply Forall_forall. intros m [_ Hm]%list_elem_of_filter.
    by eapply Forall_forall in Hrows.
  - eapply sublist_NoDup; [exact Hkey|].
    apply fmap_sublist, sublist_filter.
Qed.

Lemma create_movie_keeps_constraints db movie_in :
  movie_constraints (movies db) →
  movie_constraints (movies (fst (create_movie db movie_in))).
Proof.
  intros [Hrows Hkey]. unfold create_movie, create_movie_session.
  destruct (scalar_one_or_none _) as [[m|]|] eqn:Hsel; simpl; [done| |done].
  apply scalar_one_or_none_None in Hsel.
  destruct (resolve_country _ _) as [[c cs]|]; simpl; [|done].
  destruct (resolve_names _ (genres db)) as [[gs gt]|]; simpl; [|done].
  destruct (resolve_names _ (actors db)) as [[acs act]|]; simpl; [|done].
  destruct (resolve_names _ (languages db)) as [[ls lt]|]; simpl; [|done].
  split.
  - apply Forall_app. split; [done|]. repeat constructor; by eexists.
  - rewrite fmap_app. apply NoDup_app. split_and!; [done| |apply NoDup_singleton].
    intros x Hx ->%list_elem_of_singleton.
    apply list_elem_of_fmap in Hx as (m & [= Hn Hd] & Hm).
    assert (m ∈ filter (λ m, movie_name m = Some (create_name movie_in)
                             ∧ movie_date m = Some (create_date movie_in))
                  (movies db)) as Hin by by apply list_elem_of_filter.
    rewrite Hsel in Hin. by apply elem_of_nil in Hin.
Qed.

(** ** Further properties of the list operation *)

(** A client that requests the pages [1], ..., [total_pages] in turn and keeps
    the items of each. *)
Definition list_all_pages (db : DB) (per_page : Z)
  : result (list (list MovieListItemSchema)) :=
  mapM (λ i : nat,
          resp_movies <$> get_movies_list db (Z.of_nat (S i)) per_page)
       (seq 0 (Z.to_nat (ceil_div (count_movies db) per_page))).

Lemma ceil_div_bounds n d :
  0 < d → d * (ceil_div n d - 1) < n ≤ d * ceil_div n d.
Proof.
  intros Hd. rewrite <-(ceil_div_eq n d Hd).
  pose proof (Z.div_mod (n + d - 1) d) as Hdiv.
  pose proof (Z.mod_pos_bound (n + d - 1) d Hd). lia.
Qed.

Lemma mapM_result_length {A B : Type} (f : A → result B) l ys :
  mapM f l = Ok ys → length ys = length l.
Proof.
  revert ys. induction l as [|x l IH]; intros ys; simpl.
  - by intros [= <-].
  - destruct (f x); simpl; [|done]. destruct (mapM f l); simpl; [|done].
    intros [= <-]. simpl. f_equal. by apply IH.
Qed.

Lemma mapM_items_raises (rows : list MovieModel) e :
  mapM (λ movie, MovieListItemSchema_init (movie_id movie)
                   (movie_name movie) (movie_date movie)
                   (movie_score movie) (movie_overview movie)) rows
  = Raise e →
  e = ValidationError.
Proof.
  induction rows as [|m rows IH]; simpl; [done|].
  unfold MovieListItemSchema_init at 1.
  destruct (movie_name m), (movie_date m), (movie_score m),
    (movie_overview m); simpl; try by intros [= <-].
  destruct (ge_0_le_100 _); simpl; [|by intros [= <-]].
  destruct (mapM _ rows); simpl; [done|]. intros [= <-]. by apply IH.
Qed.

Lemma get_movies_list_not_404 db page per_page :
  0 < per_page →
  movies db ≠ [] → page ≤ ceil_div (count_movies db) per_page →
  get_movies_list db page per_page ≠ Raise NotFound.
Proof.
  intros Hpp Hne Hle. rewrite get_movies_list_past_guards by done.
  destruct (mapM _ _) eqn:Hmap; simpl; [done|].
  by apply mapM_items_raises in Hmap as ->.
Qed.

(** A successful request is past both guards. *)
Lemma get_movies_list_ok_guards db page per_page resp :
  0 < per_page →
  get_movies_list db page per_page = Ok resp →
  movies db ≠ [] ∧ page ≤ ceil_div (count_movies db) per_page.
Proof.
  intros Hpp Hget.
  destruct (decide (movies db = [])) as [He|Hne].
  { rewrite get_movies_list_raise_404 in Hget by (done || by left). done. }
  split; [done|].
  destruct (decide (page ≤ ceil_div (count_movies db) per_page)) as [|Hgt]; [done|].
  rewrite get_movies_list_raise_404 in Hget by (done || (right; lia)). done.
Qed.

Lemma get_movies_list_items db page per_page :
  0 < per_page →
  movies db ≠ [] → page ≤ ceil_div (count_movies db) per_page →
  Forall listable (movies db) →
  ∃ resp,
    get_movies_list db page per_page = Ok resp
    ∧ Forall2 summarizes (resp_movies resp)
        (take (Z.to_nat per_page)
           (drop (Z.to_nat (per_page * (page - 1)))
              (order_by_id_desc (movies db)))).
Proof.
  intros Hpp Hne Hle Hrows. rewrite get_movies_list_past_guards by done.
  destruct (mapM_items
              (take (Z.to_nat per_page)
                 (drop (Z.to_nat (per_page * (page - 1)))
                    (order_by_id_desc (movies db)))))
    as (items & -> & Hsum).
  { apply Forall_take, Forall_drop.
    by rewrite (order_by_id_desc_perm (movies db)). }
  simpl. by eexists.
Qed.

(** X10. A successful list response is for a page between 1 and
    [total_pages]; every page before the last holds exactly [per_page] items,
    and the last one holds the remaining
    [total_items - per_page * (total_pages - 1)]; no page is empty. *)
Theorem get_movies_list_page_sizes db page per_page resp :
  1 ≤ page →
  1 ≤ per_page ≤ 20 →
  get_movies_list db page per_page = Ok resp →
  page ≤ total_pages resp
  ∧ (page < total_pages resp →
     Z.of_nat (length (resp_movies resp)) = per_page)
  ∧ (page = total_pages resp →
     Z.of_nat (length (resp_movies resp))
     = total_items resp - per_page * (total_pages resp - 1))
  ∧ 1 ≤ Z.of_nat (length (resp_movies resp)).
Proof.
  intros Hpage Hpp Hget.
  destruct (get_movies_list_ok_guards db page per_page resp) as [Hne Hle];
    [lia|done|].
  rewrite get_movies_list_past_guards in Hget by (done || lia).
  destruct (mapM _ _) as [items|] eqn:Hitems; simpl in Hget; [|done].
  injection Hget as <-. simpl.
  apply mapM_result_length in Hitems.
  rewrite length_take, length_drop in Hitems.
  rewrite (Permutation_length (order_by_id_desc_perm (movies db))) in Hitems.
  pose proof (ceil_div_bounds (count_movies db) per_page) as Hceil.
  unfold count_movies in *.
  set (q := ceil_div _ _) in *. set (n := length (movies db)) in *.
  assert (Z.to_nat (per_page * (page - 1)) = (Z.to_nat per_page * Z.to_nat (page - 1))%nat)
    as Hoff by (apply Z2Nat.inj_mul; lia).
  rewrite Hitems, Hoff. split; [done|]. split_and!; intros; nia.
Qed.

Lemma list_all_pages_from db per_page (s k : nat) :
  1 ≤ per_page →
  Forall listable (movies db) →
  Z.of_nat (s + k) ≤ ceil_div (count_movies db) per_page →
  ∃ pages,
    mapM (λ i : nat,
            resp_movies <$> get_movies_list db (Z.of_nat (S i)) per_page)
         (seq s k)
    = Ok pages
    ∧ Forall2 summarizes (concat pages)
        (take (Z.to_nat per_page * k)
           (drop (Z.to_nat per_page * s) (order_by_id_desc (movies db)))).
Proof.
  intros Hpp Hrows. revert s. induction k as [|k IH]; intros s Hle.
  { exists []. split; [done|]. rewrite Nat.mul_0_r. constructor. }
  assert (movies db ≠ []) as Hne.
  { intros He. pose proof (ceil_div_bounds (count_movies db) per_page) as Hceil.
    unfold count_movies in *. rewrite He in *. simpl in *. nia. }
  destruct (get_movies_list_items db (Z.of_nat (S s)) per_page)
    as (resp & Hget & Hsum); [lia|done|lia|done|].
  destruct (IH (S s)) as (pages & Hpages & Hconcat); [lia|].
  simpl. rewrite Hget. simpl. rewrite Hpages. simpl.
  eexists. split; [done|]. simpl.
  replace (Z.to_nat (per_page * (Z.of_nat (S s) - 1)))
    with (Z.to_nat per_page * s)%nat in Hsum by nia.
  rewrite drop_drop in Hconcat || idtac.
  replace (Z.to_nat per_page * S k)%nat
    with (Z.to_nat per_page + Z.to_nat per_page * k)%nat by lia.
  rewrite <-take_take_drop, drop_drop.
  replace (Z.to_nat per_page * s + Z.to_nat per_page)%nat
    with (Z.to_nat per_page * S s)%nat by lia.
  by apply Forall2_app.
Qed.

(** X11. In a catalog whose rows satisfy the data model, requesting the
    pages 1 to [total_pages] in turn succeeds, and the items received, put end
    to end, summarize every movie of the catalog once, in descending order of
    id. *)
Theorem list_all_pages_partition db per_page :
  Forall listable (movies db) →
  1 ≤ per_page ≤ 20 →
  ∃ pages sorted,
    list_all_pages db per_page = Ok pages
    ∧ Z.of_nat (length pages) = ceil_div (count_movies db) per_page
    ∧ sorted ≡ₚ movies db
    ∧ StronglySorted (λ m1 m2, movie_id m2 ≤ movie_id m1) sorted
    ∧ Forall2 summarizes (concat pages) sorted.
Proof.
  intros Hrows Hpp. unfold list_all_pages.
  pose proof (ceil_div_bounds (count_movies db) per_page) as Hceil.
  assert (0 ≤ ceil_div (count_movies db) per_page) as Hq.
  { unfold count_movies in *. nia. }
  destruct (list_all_pages_from db per_page 0
              (Z.to_nat (ceil_div (count_movies db) per_page)))
    as (pages & Hpages & Hconcat); [lia|done|lia|].
  exists pages, (order_by_id_desc (movies db)). split; [done|].
  split.
  { apply mapM_result_length in Hpages. rewrite Hpages, length_seq. lia. }
  split; [apply order_by_id_desc_perm|].
  split; [apply order_by_id_desc_sorted|].
  rewrite Nat.mul_0_r, drop_0, take_ge in Hconcat; [done|].
  rewrite (Permutation_length (order_by_id_desc_perm (movies db))).
  unfold count_movies in *. nia.
Qed.

(** X12. In a successful list response the link to the next page is absent
    exactly when a request for the next page fails with NotFound, and a link
    to the previous page, when present, is to a page that does not fail with
    NotFound. *)
Theorem get_movies_list_links_lead db page per_page resp :
  1 ≤ page →
  1 ≤ per_page ≤ 20 →
  get_movies_list db page per_page = Ok resp →
  (next_page resp = None
   ↔ get_movies_list db (page + 1) per_page = Raise NotFound)
  ∧ (prev_page resp ≠ None →
     get_movies_list db (page - 1) per_page ≠ Raise NotFound).
Proof.
  intros Hpage Hpp Hget.
  destruct (get_movies_list_ok_guards db page per_page resp) as [Hne Hle];
    [lia|done|].
  rewrite get_movies_list_past_guards in Hget by (done || lia).
  destruct (mapM _ _) as [items|]; simpl in Hget; [|done].
  injection Hget as <-. simpl. split.
  - destruct (Z.ltb_spec page (ceil_div (count_movies db) per_page)) as [Hlt|Hge].
    + split; [done|]. intros Hnext. exfalso.
      by apply (get_movies_list_not_404 db (page + 1) per_page); [lia| |lia|].
    + split; [|done]. intros _. apply get_movies_list_raise_404; [lia|]. right. lia.
  - destruct (Z.gtb_spec page 1) as [Hgt|]; [|done]. intros _.
    apply get_movies_list_not_404; [lia|done|lia].
Qed.

(** X13. Where the movie ids are unique, the list operation does not depend
    on the order in which the store holds the rows. *)
Theorem get_movies_list_storage_order db db' page per_page :
  NoDup (movie_id <$> movies db) →
  movies db ≡ₚ movies db' →
  get_movies_list db page per_page = get_movies_list db' page per_page.
Proof.
  intros Hnd Hperm. unfold get_movies_list.
  rewrite <-(Permutation_length Hperm).
  assert (order_by_id_desc (movies db) = order_by_id_desc (movies db')) as ->; [|done].
  apply (StronglySorted_unique_strong id_desc);
    [|apply order_by_id_desc_sorted..|].
  - intros m1 m2 Hm1 Hm2 H12 H21. unfold id_desc in *.
    rewrite order_by_id_desc_perm in Hm1.
    rewrite order_by_id_desc_perm, <-Hperm in Hm2.
    apply (key_inj movie_id (movies db)); [done..|lia].
  - by rewrite !order_by_id_desc_perm.
Qed.

End Catalog.

(** ** A sample catalog

    The statements above hold for any status enumeration and any case mapping;
    the instances below are evaluated on three statuses, the ASCII case
    mapping and a catalog of three movies. *)

Inductive SampleStatus : Type := Released | PostProduction | InProduction.

Definition ascii_upper (s : string) : string :=
  string_of_list_ascii
    ((λ c : ascii,
        if (nat_of_ascii "a" <=? nat_of_ascii c)%nat
           && (nat_of_ascii c <=? nat_of_ascii "z")%nat
        then ascii_of_nat (nat_of_ascii c - 32) else c)
       <$> list_ascii_of_string s).

Definition sample_movie (id : Z) (name : string) (date : Z) (score : Q)
  : MovieModel SampleStatus :=
  {| movie_id := id;
     movie_name := Some name;
     movie_date := Some date;
     movie_score := Some score;
     movie_overview := Some "An overview.";
     movie_status := Some Released;
     movie_budget := Some (1000 # 1)%Q;
     movie_revenue := Some (2500 # 1)%Q;
     movie_country := 1;
     movie_genres := [1; 2];
     movie_actors := [1];
     movie_languages := [1] |}.

Definition sample_db : DB SampleStatus :=
  {| movies := [ sample_movie 1 "Alien" 722815 (85 # 1)%Q;
                 sample_movie 3 "Heat" 728647 (83 # 1)%Q;
                 sample_movie 2 "Brazil" 724960 (79 # 1)%Q ];
     countries := [ {| country_id := 1; country_code := "US";
                       country_name := None |} ];
     genres := [ {| named_id := 1; named_name := "Drama" |};
                 {| named_id := 2; named_name := "Thriller" |} ];
     actors := [ {| named_id := 1; named_name := "Ian Holm" |} ];
     languages := [ {| named_id := 1; named_name := "English" |} ] |}.

Definition sample_today : Z := 739558.

Definition sample_create : MovieCreateSchema SampleStatus :=
  {| create_name := "Ran";
     create_date := 725157;
     create_score := (82 # 1)%Q;
     create_overview := "An aging warlord divides his realm.";
     create_status := Released;
     create_budget := (11000000 # 1)%Q;
     create_revenue := (19000000 # 1)%Q;
     create_country := "JP";
     create_genres := ["Drama"; "War"; "War"];
     create_actors := ["Tatsuya Nakadai"];
     create_languages := ["Japanese"] |}.

(** The body [{"score": null}]. *)
Definition score_null_body : MovieUpdateBody SampleStatus :=
  {| body_name := None; body_date := None; body_score := Some None;
     body_overview := None; body_status := None; body_budget := None;
     body_revenue := None; body_country := None |}.

(** The body [{"date": null}]. *)
Definition date_null_body : MovieUpdateBody SampleStatus :=
  {| body_name := None; body_date := Some None; body_score := None;
     body_overview := None; body_status := None; body_budget := None;
     body_revenue := None; body_country := None |}.

(** The body [{"score": 90, "country": "fr"}]. *)
Definition score_country_body : MovieUpdateBody SampleStatus :=
  {| body_name := None; body_date := None; body_score := Some (Some (90 # 1)%Q);
     body_overview := None; body_status := None; body_budget := None;
     body_revenue := None; body_country := Some (Some (json_string "fr")) |}.

(** The body [{"date": "1999-12-31"}]: a date in the past. *)
Definition date_body : MovieUpdateBody SampleStatus :=
  {| body_name := None; body_date := Some (Some 730119); body_score := None;
     body_overview := None; body_status := None; body_budget := None;
     body_revenue := None; body_country := None |}.

(** The body [{"country": null}]. *)
Definition country_null_body : MovieUpdateBody SampleStatus :=
  {| body_name := None; body_date := None; body_score := None;
     body_overview := None; body_status := None; body_budget := None;
     body_revenue := None; body_country := Some None |}.

(** The body [{"name": "Alien"}]. *)
Definition rename_body : MovieUpdateBody SampleStatus :=
  {| body_name := Some (Some "Alien"); body_date := None; body_score := None;
     body_overview := None; body_status := None; body_budget := None;
     body_revenue := None; body_country := None |}.

(** A catalog with two movies of one date. *)
Definition twin_db : DB SampleStatus :=
  {| movies := [ sample_movie 1 "Alien" 722815 (85 # 1)%Q;
                 sample_movie 2 "Aliens" 722815 (84 # 1)%Q ];
     countries := countries _ sample_db;
     genres := genres _ sample_db;
     actors := actors _ sample_db;
     languages := languages _ sample_db |}.

Lemma sample_db_listable : Forall (listable SampleStatus) (movies _ sample_db).
Proof.
  repeat constructor; simpl; try by eexists.
  all: eexists; split; [done|]; split; by vm_compute.
Qed.

Lemma sample_db_unique_keys : unique_keys SampleStatus sample_db.
Proof. unfold unique_keys, unique_named. simpl. split_and!; compute_done. Qed.

Lemma sample_create_valid :
  MovieCreateSchema_validate SampleStatus sample_today sample_create = Ok sample_create.
Proof. by vm_compute. Qed.

(** ** Instances of the theorems on the sample catalog *)

Lemma get_movies_list_page_witness :
  (movies _ sample_db ≠ []
   ∧ Forall (listable SampleStatus) (movies _ sample_db)
   ∧ 1 ≤ 2 ∧ 1 ≤ 2 ≤ 20
   ∧ 2 ≤ ceil_div (count_movies _ sample_db) 2)
  ∧ ∃ resp sorted,
      get_movies_list SampleStatus sample_db 2 2 = Ok resp
      ∧ sorted ≡ₚ movies _ sample_db
      ∧ StronglySorted (λ m1 m2, movie_id _ m2 ≤ movie_id _ m1) sorted
      ∧ Forall2 (summarizes _) (resp_movies resp)
          (take (Z.to_nat 2) (drop (Z.to_nat (2 * (2 - 1))) sorted))
      ∧ Z.of_nat (length (resp_movies resp)) ≤ 2
      ∧ total_items resp = count_movies _ sample_db
      ∧ total_pages resp = ceil_div (count_movies _ sample_db) 2.
Proof.
  assert (2 ≤ ceil_div (count_movies _ sample_db) 2) as Hpage by by vm_compute.
  split.
  - split_and!; [done|apply sample_db_listable|lia..|done].
  - apply (get_movies_list_page SampleStatus sample_db 2 2);
      [done|apply sample_db_listable|lia..|done].
Defined.

Lemma get_movies_list_not_found_iff_witness :
  (1 ≤ 3 ∧ 1 ≤ 2 ≤ 20)
  ∧ (get_movies_list SampleStatus sample_db 3 2 = Raise NotFound
     ↔ movies _ sample_db = [] ∨ 3 > ceil_div (count_movies _ sample_db) 2).
Proof.
  split; [lia|].
  apply (get_movies_list_not_found_iff SampleStatus sample_db 3 2); lia.
Defined.

Lemma get_movies_list_links_witness :
  let resp :=
    {| resp_movies := [ {| item_id := 2; item_name := "Brazil";
                           item_date := 724960; item_score := (79 # 1)%Q;
                           item_overview := "An overview." |} ];
       prev_page := Some "/theater/movies/?page=1&per_page=1";
       next_page := Some "/theater/movies/?page=3&per_page=1";
       total_pages := 3;
       total_items := 3 |} in
  (1 ≤ 2 ∧ 1 ≤ 1 ≤ 20
   ∧ get_movies_list SampleStatus sample_db 2 1 = Ok resp)
  ∧ (prev_page resp = None ↔ 2 = 1)
  ∧ (next_page resp = None ↔ total_pages resp ≤ 2)
  ∧ (∀ url, prev_page resp = Some url →
       url = "/theater/movies/?page=" +:+ str_of_int (2 - 1)
               +:+ "&per_page=" +:+ str_of_int 1)
  ∧ (∀ url, next_page resp = Some url →
       url = "/theater/movies/?page=" +:+ str_of_int (2 + 1)
               +:+ "&per_page=" +:+ str_of_int 1).
Proof.
  intros resp. split; [split_and!; [lia..|by vm_compute]|].
  apply (get_movies_list_links SampleStatus sample_db 2 1 resp);
    [lia | lia | by vm_compute].
Defined.

Lemma delete_movie_not_found_iff_witness :
  NoDup (movie_id _ <$> movies _ sample_db)
  ∧ (snd (delete_movie SampleStatus sample_db 3) = Raise NotFound
     ↔ ¬ ∃ m, m ∈ movies _ sample_db ∧ movie_id _ m = 3)
  ∧ (snd (delete_movie SampleStatus sample_db 3) = Raise NotFound →
     fst (delete_movie SampleStatus sample_db 3) = sample_db)
  ∧ (∀ m, m ∈ movies _ sample_db → movie_id _ m = 3 →
       let db' := fst (delete_movie SampleStatus sample_db 3) in
       snd (delete_movie SampleStatus sample_db 3) = Ok ()
       ∧ (∀ m', m' ∈ movies _ db' ↔ m' ∈ movies _ sample_db ∧ m' ≠ m)
       ∧ countries _ db' = countries _ sample_db
       ∧ genres _ db' = genres _ sample_db
       ∧ actors _ db' = actors _ sample_db
       ∧ languages _ db' = languages _ sample_db
       ∧ get_movie SampleStatus db' 3 = Raise NotFound).
Proof.
  assert (NoDup (movie_id _ <$> movies _ sample_db)) as Hnd by compute_done.
  split; [done|].
  apply (delete_movie_not_found_iff SampleStatus sample_db 3 Hnd).
Defined.

Lemma create_movie_conflict_iff_witness :
  (unique_keys SampleStatus sample_db
   ∧ MovieCreateSchema_validate SampleStatus sample_today sample_create
     = Ok sample_create)
  ∧ (snd (create_movie SampleStatus sample_db sample_create) = Raise Conflict
     ↔ ∃ m, m ∈ movies _ sample_db
            ∧ movie_name _ m = Some (create_name _ sample_create)
            ∧ movie_date _ m = Some (create_date _ sample_create))
  ∧ (snd (create_movie SampleStatus sample_db sample_create) = Raise Conflict →
     fst (create_movie SampleStatus sample_db sample_create) = sample_db)
  ∧ ((∀ m, m ∈ movies _ sample_db →
        movie_name _ m ≠ Some (create_name _ sample_create)
        ∨ movie_date _ m ≠ Some (create_date _ sample_create)) →
     ∃ detail m,
       snd (create_movie SampleStatus sample_db sample_create) = Ok detail
       ∧ detail_name _ detail = create_name _ sample_create
       ∧ detail_date _ detail = create_date _ sample_create
       ∧ movies _ (fst (create_movie SampleStatus sample_db sample_create))
         = movies _ sample_db ++ [m]
       ∧ movie_id _ m = detail_id _ detail
       ∧ movie_name _ m = Some (create_name _ sample_create)
       ∧ movie_date _ m = Some (create_date _ sample_create)).
Proof.
  split; [split; [apply sample_db_unique_keys|apply sample_create_valid]|].
  apply (create_movie_conflict_iff SampleStatus sample_today sample_db
           sample_create sample_db_unique_keys sample_create_valid).
Defined.

Lemma sample_create_no_conflict :
  ∀ m, m ∈ movies _ sample_db →
    ¬ (movie_name _ m = Some (create_name _ sample_create)
       ∧ movie_date _ m = Some (create_date _ sample_create)).
Proof.
  intros m Hm [Hn _]. revert Hn.
  repeat (apply elem_of_cons in Hm as [->|Hm]; [by vm_compute|]).
  by apply elem_of_nil in Hm.
Qed.

Lemma create_movie_resolves_lookups_witness :
  (unique_keys SampleStatus sample_db
   ∧ ∀ m, m ∈ movies _ sample_db →
       ¬ (movie_name _ m = Some (create_name _ sample_create)
          ∧ movie_date _ m = Some (create_date _ sample_create)))
  ∧ let db' := fst (create_movie SampleStatus sample_db sample_create) in
    ∃ movie,
      movies _ db' = movies _ sample_db ++ [movie]
      ∧ country_resolved (create_country _ sample_create)
          (countries _ sample_db) (countries _ db') (movie_country _ movie)
      ∧ names_resolved (create_genres _ sample_create)
          (genres _ sample_db) (genres _ db') (movie_genres _ movie)
      ∧ names_resolved (create_actors _ sample_create)
          (actors _ sample_db) (actors _ db') (movie_actors _ movie)
      ∧ names_resolved (create_languages _ sample_create)
          (languages _ sample_db) (languages _ db') (movie_languages _ movie)
      ∧ unique_keys SampleStatus db'.
Proof.
  split; [split; [apply sample_db_unique_keys|apply sample_create_no_conflict]|].
  apply (create_movie_resolves_lookups SampleStatus sample_db sample_create
           sample_db_unique_keys sample_create_no_conflict).
Defined.

Definition alien : MovieModel SampleStatus :=
  sample_movie 1 "Alien" 722815 (85 # 1)%Q.

(** The update of movie 1 with the body [{"score": 90, "country": "fr"}],
    which the schema accepts and the store keeps: the instance of the lemma
    on what an update applies. *)
Lemma update_movie_applies_sample :
  let movie_data := fields_of _ score_country_body in
  let db' := fst (update_movie SampleStatus sample_db 1 movie_data) in
  MovieUpdateSchema_validate SampleStatus ascii_upper sample_today score_country_body
  = Ok movie_data
  ∧ snd (update_movie SampleStatus sample_db 1 movie_data) = Ok updated_message
  ∧ ∃ d,
      get_movie SampleStatus sample_db 1 = Ok d
      ∧ get_movie SampleStatus db' 1 = Ok (update_detail _ movie_data d).
Proof.
  intros movie_data db'.
  assert (NoDup (movie_id _ <$> movies _ sample_db)) as Hnd by compute_done.
  assert (alien ∈ movies _ sample_db) as Hin by left.
  assert (MovieUpdateSchema_validate SampleStatus ascii_upper sample_today
            score_country_body = Ok movie_data) as Hvalid by by vm_compute.
  assert (snd (update_movie SampleStatus sample_db 1 movie_data) = Ok updated_message)
    as Hok by by vm_compute.
  split; [done|]. split; [done|]. eexists. split; [by vm_compute|].
  eapply (update_movie_applies SampleStatus ascii_upper sample_db 1 alien movie_data
            Hnd Hin eq_refl Hok); [exact Hvalid|by split_and!|by vm_compute].
Qed.

(** C5 on a failing input: the body [{"date": "1999-12-31"}] for movie 1.
    The date is far within the bound that the create schema applies, and the
    date validator of the create schema accepts it; the update schema rejects
    the body with a validation error, as it rejects every date, and the
    store is unchanged. *)
Lemma update_date_in_bound_rejected :
  730119 ≤ sample_today + 365
  ∧ MovieCreateSchema_date_not_too_far sample_today 730119 = Ok 730119
  ∧ body_date _ date_body = Some (Some 730119)
  ∧ MovieUpdateSchema_validate SampleStatus ascii_upper sample_today date_body
    = Raise RequestValidationError
  ∧ patch_movies SampleStatus ascii_upper sample_today sample_db 1 date_body
    = (sample_db, Raise RequestValidationError).
Proof. split_and!; by vm_compute. Qed.

(** C6 on failing inputs, for the existing movie 1.  The body
    [{"date": "1999-12-31"}], a partial update of one scalar field, is
    rejected with a validation error and nothing is applied.  The body
    [{"score": null}] is accepted by the schema, [None] is assigned to the
    score of the movie, the store refuses the commit, and the request ends
    with [IntegrityError] instead of the confirmation; the movie keeps its
    score. *)
Lemma update_payloads_not_applied :
  (∃ d, get_movie SampleStatus sample_db 1 = Ok d)
  ∧ patch_movies SampleStatus ascii_upper sample_today sample_db 1 date_body
    = (sample_db, Raise RequestValidationError)
  ∧ MovieUpdateSchema_validate SampleStatus ascii_upper sample_today score_null_body
    = Ok (fields_of _ score_null_body)
  ∧ model_dump_exclude_unset _ (fields_of _ score_null_body) = [score_item _ None]
  ∧ movie_score _ (foldl (setattr _) alien
                     (model_dump_exclude_unset _ (fields_of _ score_null_body)))
    = None
  ∧ patch_movies SampleStatus ascii_upper sample_today sample_db 1 score_null_body
    = (sample_db, Raise IntegrityError).
Proof. split; [by eexists|]. split_and!; by vm_compute. Qed.

(** A rename onto the name and date of another movie is accepted by the
    schema and refused by the store in the same way: [{"name": "Alien"}] for
    movie 2 of the catalog with two movies of one date. *)
Lemma rename_onto_existing_refused :
  MovieUpdateSchema_validate SampleStatus ascii_upper sample_today rename_body
  = Ok (fields_of _ rename_body)
  ∧ patch_movies SampleStatus ascii_upper sample_today twin_db 2 rename_body
    = (twin_db, Raise IntegrityError)
  ∧ patch_movies SampleStatus ascii_upper sample_today sample_db 2 rename_body
    = ({| movies := [ sample_movie 1 "Alien" 722815 (85 # 1)%Q;
                      sample_movie 3 "Heat" 728647 (83 # 1)%Q;
                      sample_movie 2 "Alien" 724960 (79 # 1)%Q ];
          countries := countries _ sample_db;
          genres := genres _ sample_db;
          actors := actors _ sample_db;
          languages := languages _ sample_db |}, Ok updated_message).
Proof. split_and!; by vm_compute. Qed.

(** C9 as stated fails on the body [{"country": null}]: the body has the key
    [country], its value is not two or three uppercase letters, and yet the
    model validator returns the body unchecked, the schema accepts it and the
    update of movie 1 answers with the confirmation. *)
Lemma update_country_null_counterexample :
  body_country _ country_null_body = Some None
  ∧ validate_country SampleStatus ascii_upper country_null_body
    = Ok country_null_body
  ∧ MovieUpdateSchema_validate SampleStatus ascii_upper sample_today
      country_null_body
    = Ok (fields_of _ country_null_body)
  ∧ patch_movies SampleStatus ascii_upper sample_today sample_db 1
      country_null_body
    = (sample_db, Ok updated_message)
  ∧ patch_movies SampleStatus ascii_upper sample_today sample_db 1
      country_null_body
    ≠ (sample_db, Raise RequestValidationError).
Proof. split_and!; by vm_compute. Qed.

(** The body [{"score": 90, "country": "fr"}] on movie 1: the code is
    uppercased to [FR] and accepted, the score is applied, and the movie keeps
    country 1; no row is added to the country table. *)
Lemma patch_score_country_sample :
  ascii_upper "fr" = "FR"
  ∧ ∃ db',
      patch_movies SampleStatus ascii_upper sample_today sample_db 1 score_country_body
      = (db', Ok updated_message)
      ∧ countries _ db' = countries _ sample_db
      ∧ (λ m, (movie_id _ m, movie_score _ m, movie_country _ m)) <$> movies _ db'
        = [(1, Some (90 # 1)%Q, 1); (3, Some (83 # 1)%Q, 1); (2, Some (79 # 1)%Q, 1)].
Proof. split; [by vm_compute|]. eexists. split; [by vm_compute|]. by split. Qed.

(** C10 on the failing input: the body [{"date": null}] for movie 1.  The
    field admits the [None], the date validator compares it with a date, the
    [TypeError] reaches the framework, and the movie keeps its date. *)
Lemma patch_date_null_raises_TypeError :
  MovieUpdateSchema_date_not_too_far sample_today None = Raise TypeError
  ∧ patch_movies SampleStatus ascii_upper sample_today sample_db 1 date_null_body
    = (sample_db, Raise TypeError).
Proof. split; by vm_compute. Qed.

(** For the other scalar fields an explicit null is kept by
    [model_dump(exclude_unset=True)] and reaches [setattr]; here
    [{"score": null}]. *)
Lemma score_null_reaches_setattr :
  MovieUpdateSchema_validate SampleStatus ascii_upper sample_today score_null_body
  = Ok (fields_of _ score_null_body)
  ∧ model_dump_exclude_unset _ (fields_of _ score_null_body) = [score_item _ None].
Proof. split; by vm_compute. Qed.

(** The boundary of the date rule on the sample payload. *)
Lemma create_date_boundary :
  let with_date d :=
    {| create_name := create_name _ sample_create;
       create_date := d;
       create_score := create_score _ sample_create;
       create_overview := create_overview _ sample_create;
       create_status := create_status _ sample_create;
       create_budget := create_budget _ sample_create;
       create_revenue := create_revenue _ sample_create;
       create_country := create_country _ sample_create;
       create_genres := create_genres _ sample_create;
       create_actors := create_actors _ sample_create;
       create_languages := create_languages _ sample_create |} in
  MovieCreateSchema_validate SampleStatus sample_today (with_date (sample_today + 365))
  = Ok (with_date (sample_today + 365))
  ∧ MovieCreateSchema_validate SampleStatus sample_today (with_date (sample_today + 366))
    = Raise RequestValidationError.
Proof. split; by vm_compute. Qed.

(** ** Instances of the further properties on the sample catalog *)

Lemma sample_db_ids : NoDup (movie_id _ <$> movies _ sample_db).
Proof. compute_done. Qed.

Lemma sample_create_differs :
  ∀ m, m ∈ movies _ sample_db →
    movie_name _ m ≠ Some (create_name _ sample_create)
    ∨ movie_date _ m ≠ Some (create_date _ sample_create).
Proof.
  intros m Hm. left.
  repeat (apply elem_of_cons in Hm as [->|Hm]; [by vm_compute|]).
  by apply elem_of_nil in Hm.
Qed.

Definition sample_db_reversed : DB SampleStatus :=
  {| movies := reverse (movies _ sample_db);
     countries := countries _ sample_db;
     genres := genres _ sample_db;
     actors := actors _ sample_db;
     languages := languages _ sample_db |}.

Lemma get_movie_not_found_iff_witness :
  NoDup (movie_id _ <$> movies _ sample_db)
  ∧ (get_movie SampleStatus sample_db 7 = Raise NotFound
     ↔ ¬ has_movie _ sample_db 7).
Proof.
  split; [apply sample_db_ids|].
  apply (get_movie_not_found_iff SampleStatus sample_db 7 sample_db_ids).
Defined.

Lemma update_movie_not_found_iff_witness :
  NoDup (movie_id _ <$> movies _ sample_db)
  ∧ (snd (update_movie SampleStatus sample_db 7 (empty_update _)) = Raise NotFound
     ↔ ¬ has_movie _ sample_db 7).
Proof.
  split; [apply sample_db_ids|].
  apply (update_movie_not_found_iff SampleStatus sample_db 7 (empty_update _)
           sample_db_ids).
Defined.

Lemma delete_movie_twice_witness :
  NoDup (movie_id _ <$> movies _ sample_db)
  ∧ delete_movie SampleStatus (fst (delete_movie SampleStatus sample_db 3)) 3
    = (fst (delete_movie SampleStatus sample_db 3), Raise NotFound).
Proof.
  split; [apply sample_db_ids|].
  apply (delete_movie_twice SampleStatus sample_db 3 sample_db_ids).
Defined.

Lemma delete_update_other_ids_witness :
  2 ≠ 3
  ∧ get_movie SampleStatus (fst (delete_movie SampleStatus sample_db 3)) 2
    = get_movie SampleStatus sample_db 2
  ∧ get_movie SampleStatus
      (fst (update_movie SampleStatus sample_db 3 (fields_of _ score_null_body))) 2
    = get_movie SampleStatus sample_db 2.
Proof.
  split; [lia|].
  apply (delete_update_other_ids SampleStatus sample_db 3 2
           (fields_of _ score_null_body)); lia.
Defined.

Lemma create_movie_response_witness :
  ∃ detail,
    (unique_keys SampleStatus sample_db
     ∧ snd (create_movie SampleStatus sample_db sample_create) = Ok detail)
    ∧ cs_code (detail_country _ detail) = create_country _ sample_create
    ∧ (∀ n, n ∈ ns_name <$> detail_genres _ detail
            ↔ n ∈ create_genres _ sample_create).
Proof.
  eexists.
  assert (snd (create_movie SampleStatus sample_db sample_create) = Ok _) as Hok
    by by vm_compute.
  split; [split; [apply sample_db_unique_keys|exact Hok]|].
  pose proof (create_movie_response SampleStatus sample_db sample_create _
                sample_db_unique_keys Hok) as H.
  split; apply H.
Defined.

Lemma create_movie_then_get_witness :
  (unique_keys SampleStatus sample_db
   ∧ MovieCreateSchema_validate SampleStatus sample_today sample_create
     = Ok sample_create)
  ∧ ∃ detail detail',
      snd (create_movie SampleStatus sample_db sample_create) = Ok detail
      ∧ get_movie SampleStatus (fst (create_movie SampleStatus sample_db sample_create))
          (detail_id _ detail) = Ok detail'
      ∧ same_detail _ detail detail'.
Proof.
  split; [split; [apply sample_db_unique_keys|apply sample_create_valid]|].
  apply (create_movie_then_get SampleStatus sample_today sample_db sample_create
           sample_db_unique_keys sample_create_valid sample_create_differs).
Defined.

(** The body [{"country": "fr"}]. *)
Definition country_only_body : MovieUpdateBody SampleStatus :=
  {| body_name := None; body_date := None; body_score := None;
     body_overview := None; body_status := None; body_budget := None;
     body_revenue := None; body_country := Some (Some (json_string "fr")) |}.

(** The body [{"country": "usa1"}]. *)
Definition country_bad_body : MovieUpdateBody SampleStatus :=
  {| body_name := None; body_date := None; body_score := None;
     body_overview := None; body_status := None; body_budget := None;
     body_revenue := None; body_country := Some (Some (json_string "usa1")) |}.

Lemma update_country_checked_not_applied_witness :
  (body_country _ country_bad_body = Some (Some (json_string "usa1"))
   ∧ ¬ uppercase_code (ascii_upper "usa1")
   ∧ NoDup (movie_id _ <$> movies _ sample_db))
  ∧ patch_movies SampleStatus ascii_upper sample_today sample_db 1 country_bad_body
    = (sample_db, Raise RequestValidationError)
  ∧ countries _ (fst (patch_movies SampleStatus ascii_upper sample_today
                        sample_db 1 country_bad_body))
    = countries _ sample_db.
Proof.
  assert (¬ uppercase_code (ascii_upper "usa1")) as Hbad.
  { intros [[Hlen|Hlen] _]; vm_compute in Hlen; lia. }
  destruct (update_country_checked_not_applied SampleStatus ascii_upper
              sample_today country_bad_body) as (Hstr & _ & _ & Hframe).
  destruct (Hstr "usa1" eq_refl) as (_ & Hrej & _).
  destruct (Hrej Hbad) as (_ & _ & Hpatch).
  split; [split_and!; [done|done|apply sample_db_ids]|].
  split; [apply Hpatch|]. apply (Hframe sample_db 1 sample_db_ids).
Defined.

Lemma patch_country_only_witness :
  (body_country _ country_only_body = Some (Some (json_string "fr"))
   ∧ uppercase_code (ascii_upper "fr")
   ∧ fields_of _ country_only_body = empty_update _
   ∧ NoDup (movie_id _ <$> movies _ sample_db)
   ∧ has_movie _ sample_db 1)
  ∧ patch_movies SampleStatus ascii_upper sample_today sample_db 1 country_only_body
    = (sample_db, Ok updated_message).
Proof.
  assert (uppercase_code (ascii_upper "fr")) as Hcode.
  { split; [by left|]. repeat constructor; simpl; lia. }
  assert (has_movie _ sample_db 1) as Hhas.
  { exists alien. split; [left|done]. }
  split; [split_and!; [done|done|done|apply sample_db_ids|done]|].
  apply (patch_country_only SampleStatus ascii_upper sample_today sample_db 1
           country_only_body "fr" eq_refl Hcode eq_refl sample_db_ids Hhas).
Defined.

Lemma create_movie_twice_witness :
  unique_keys SampleStatus sample_db
  ∧ create_movie SampleStatus
      (fst (create_movie SampleStatus sample_db sample_create)) sample_create
    = (fst (create_movie SampleStatus sample_db sample_create), Raise Conflict).
Proof.
  split; [apply sample_db_unique_keys|].
  apply (create_movie_twice SampleStatus sample_db sample_create sample_create
           sample_db_unique_keys sample_create_differs eq_refl eq_refl).
Defined.

Lemma update_date_null_not_accepted_witness :
  body_date _ date_null_body = Some None
  ∧ MovieUpdateSchema_validate SampleStatus ascii_upper sample_today date_null_body
    = Raise TypeError.
Proof.
  split; [done|].
  apply (update_date_null_not_accepted SampleStatus ascii_upper sample_today
           date_null_body eq_refl).
  by intros v [=].
Defined.

Lemma get_movies_list_page_sizes_witness :
  ∃ resp,
    (1 ≤ 2 ∧ 1 ≤ 2 ≤ 20 ∧ get_movies_list SampleStatus sample_db 2 2 = Ok resp)
    ∧ 2 ≤ total_pages resp
    ∧ (2 = total_pages resp →
       Z.of_nat (length (resp_movies resp))
       = total_items resp - 2 * (total_pages resp - 1))
    ∧ 1 ≤ Z.of_nat (length (resp_movies resp)).
Proof.
  eexists.
  assert (get_movies_list SampleStatus sample_db 2 2 = Ok _) as Hok by by vm_compute.
  split; [split_and!; [lia..|exact Hok]|].
  pose proof (get_movies_list_page_sizes SampleStatus sample_db 2 2 _
                ltac:(lia) ltac:(lia) Hok) as (H1 & _ & H3 & H4).
  by split_and!.
Defined.

Lemma list_all_pages_partition_witness :
  (Forall (listable SampleStatus) (movies _ sample_db) ∧ 1 ≤ 2 ≤ 20)
  ∧ ∃ pages sorted,
      list_all_pages SampleStatus sample_db 2 = Ok pages
      ∧ Z.of_nat (length pages) = ceil_div (count_movies _ sample_db) 2
      ∧ sorted ≡ₚ movies _ sample_db
      ∧ StronglySorted (λ m1 m2, movie_id _ m2 ≤ movie_id _ m1) sorted
      ∧ Forall2 (summarizes _) (concat pages) sorted.
Proof.
  split; [split; [apply sample_db_listable|lia]|].
  apply (list_all_pages_partition SampleStatus sample_db 2 sample_db_listable); lia.
Defined.

Lemma get_movies_list_links_lead_witness :
  ∃ resp,
    (1 ≤ 2 ∧ 1 ≤ 2 ≤ 20 ∧ get_movies_list SampleStatus sample_db 2 2 = Ok resp)
    ∧ (next_page resp = None
       ↔ get_movies_list SampleStatus sample_db (2 + 1) 2 = Raise NotFound)
    ∧ (prev_page resp ≠ None →
       get_movies_list SampleStatus sample_db (2 - 1) 2 ≠ Raise NotFound).
Proof.
  eexists.
  assert (get_movies_list SampleStatus sample_db 2 2 = Ok _) as Hok by by vm_compute.
  split; [split_and!; [lia..|exact Hok]|].
  apply (get_movies_list_links_lead SampleStatus sample_db 2 2 _); [lia|lia|exact Hok].
Defined.

Lemma get_movies_list_storage_order_witness :
  (NoDup (movie_id _ <$> movies _ sample_db)
   ∧ movies _ sample_db ≡ₚ movies _ sample_db_reversed)
  ∧ get_movies_list SampleStatus sample_db 1 2
    = get_movies_list SampleStatus sample_db_reversed 1 2.
Proof.
  assert (movies _ sample_db ≡ₚ movies _ sample_db_reversed) as Hperm.
  { simpl. by rewrite reverse_Permutation. }
  split; [split; [apply sample_db_ids|done]|].
  apply (get_movies_list_storage_order SampleStatus sample_db sample_db_reversed 1 2
           sample_db_ids Hperm).
Defined.
